(** * color_generator.py: a shallow embedding and its verified properties

    The script parses colour tokens, reduces the batch of parsed samples with
    one of four rules (mix, lowest, highest, mix-saturate) and reports the
    result in hex and HSL form.

    Modelling choices, fixed once for the whole development:
    - the function annotations make the script Python 3: [/] is true
      division and [round] rounds halves to even; [sum] adds floats
      differently since CPython 3.12, so what depends on it takes the
      [interpreter] as a parameter;
    - Python [int] is [Z]; Python [float] is IEEE 754 binary64, taken as
      Rocq's primitive [float] (the same format, the same rounding), so
      every float the script computes is computed here bit for bit;
    - a Python number that may be either is a [num] ([I z] or [F x]), since
      [calc_saturation] and [calc_hue] return the int [0] on one path and a
      float on the other;
    - a call that may raise returns a [result]: [Ok v] or [Raise e];
    - [str] is a list of characters, each a code point below 256: the
      ASCII characters the tokens are made of, and the Latin-1 characters
      that may stand around them;
    - the built-ins the script calls ([re.search], [int], [round], [max],
      [min], [sum], [str.split], [str.rstrip], [str.format], slicing and
      indexing) are modelled in the modules [Regex], [Py], [Num] and [Fmt],
      each as far as the script can reach it;
    - printing and opening the file are outside the model: [read_colors]
      takes the text of the file. *)

From Stdlib Require Import ZArith List Bool Ascii String Lia Floats Permutation.
Import ListNotations.
Local Open Scope Z_scope.

(** ** Exceptions *)

Inductive exn : Type :=
| ZeroDivisionError
| ValueError
| IndexError
| OverflowError.

Inductive result (A : Type) : Type :=
| Ok (a : A)
| Raise (e : exn).
Arguments Ok {A} a.
Arguments Raise {A} e.

Definition bind {A B : Type} (m : result A) (k : A -> result B) : result B :=
  match m with
  | Ok a => k a
  | Raise e => Raise e
  end.

Notation "x <- m ;; k" := (bind m (fun x => k))
  (at level 61, m at next level, right associativity).

(** ** Strings *)

Definition str : Type := list ascii.

Definition lit (s : string) : str := list_ascii_of_string s.

Definition code (c : ascii) : Z := Z.of_N (N_of_ascii c).

Definition char_between (lo hi : Z) (c : ascii) : bool :=
  (lo <=? code c) && (code c <=? hi).

(** [0-9] *)
Definition is_digit : ascii -> bool := char_between 48 57.
(** [a-f] *)
Definition is_lower_af : ascii -> bool := char_between 97 102.
(** [A-F] *)
Definition is_upper_af : ascii -> bool := char_between 65 70.
(** [0-9a-f] *)
Definition is_lower_hex (c : ascii) : bool := is_digit c || is_lower_af c.

Definition is_comma (c : ascii) : bool := code c =? 44.
Definition is_newline (c : ascii) : bool := code c =? 10.

(** ** Regular expressions, as far as the two patterns of [format_color] go *)

Module Regex.

Inductive regex : Type :=
| Empty                               (* matches nothing *)
| Eps                                 (* matches the empty string *)
| Class (p : ascii -> bool)           (* one character of a class *)
| Cat (r1 r2 : regex)                 (* r1 r2 *)
| Alt (r1 r2 : regex)                 (* r1|r2 *)
| Rep (r : regex) (lo hi : nat).      (* r{lo,hi} *)

Fixpoint nullable (r : regex) : bool :=
  match r with
  | Empty => false
  | Eps => true
  | Class _ => false
  | Cat r1 r2 => nullable r1 && nullable r2
  | Alt r1 r2 => nullable r1 || nullable r2
  | Rep r lo _ => Nat.eqb lo 0 || nullable r
  end.

(** Brzozowski derivative. The bodies of the bounded repetitions in the
    script's patterns never match the empty string, which is what the
    [Rep] case relies on. *)
Fixpoint deriv (c : ascii) (r : regex) : regex :=
  match r with
  | Empty => Empty
  | Eps => Empty
  | Class p => if p c then Eps else Empty
  | Cat r1 r2 =>
      Alt (Cat (deriv c r1) r2) (if nullable r1 then deriv c r2 else Empty)
  | Alt r1 r2 => Alt (deriv c r1) (deriv c r2)
  | Rep r lo hi =>
      match hi with
      | O => Empty
      | S hi' => Cat (deriv c r) (Rep r (Nat.pred lo) hi')
      end
  end.

Fixpoint fullmatch (r : regex) (s : str) : bool :=
  match s with
  | [] => nullable r
  | c :: s' => fullmatch (deriv c r) s'
  end.

(** [re.search("^r$", s)] without flags: [^] is the start of the string
    and [$] is its end or the position before one final newline. *)
Definition search_anchored (r : regex) (s : str) : bool :=
  fullmatch r s ||
  match rev s with
  | c :: body => is_newline c && fullmatch r (rev body)
  | [] => false
  end.

(** Characters that occur in some word of [r]. *)
Fixpoint accepts_char (r : regex) (c : ascii) : bool :=
  match r with
  | Empty | Eps => false
  | Class p => p c
  | Cat r1 r2 | Alt r1 r2 => accepts_char r1 c || accepts_char r2 c
  | Rep r _ _ => accepts_char r c
  end.

(** A syntactic sufficient condition for matching nothing. *)
Fixpoint void (r : regex) : bool :=
  match r with
  | Empty => true
  | Eps | Class _ | Rep _ _ _ => false
  | Cat r1 r2 => void r1 || void r2
  | Alt r1 r2 => void r1 && void r2
  end.

End Regex.

Import Regex.

(** [^([0-9a-f]{3}|[0-9a-f]{6}|[0-9a-f]{8})$] *)
Definition hex_pattern : regex :=
  Alt (Rep (Class is_lower_hex) 3 3)
      (Alt (Rep (Class is_lower_hex) 6 6) (Rep (Class is_lower_hex) 8 8)).

(** [^([0-9]{1,3},){3}[0-9]{1,3}$] *)
Definition decimal_pattern : regex :=
  Cat (Rep (Cat (Rep (Class is_digit) 1 3) (Class is_comma)) 3 3)
      (Rep (Class is_digit) 1 3).

(** ** Built-ins on strings and lists *)

Module Py.

(** [str.isspace] on the code points below 256: tab to carriage return,
    the four separators 28..31, the space, and the two Latin-1 spaces,
    next line (133, U+0085) and no-break space (160, U+00A0). *)
Definition is_space (c : ascii) : bool :=
  char_between 9 13 c || char_between 28 31 c || (code c =? 32) ||
  (code c =? 133) || (code c =? 160).

(** The narrower set that [int] skips around a literal: tab to carriage
    return, the space and the two Latin-1 spaces, but not the separators
    28..31. *)
Definition is_int_space (c : ascii) : bool :=
  char_between 9 13 c || (code c =? 32) || (code c =? 133) ||
  (code c =? 160).

Fixpoint lstrip_with (p : ascii -> bool) (s : str) : str :=
  match s with
  | c :: s' => if p c then lstrip_with p s' else s
  | [] => []
  end.

Definition rstrip_with (p : ascii -> bool) (s : str) : str :=
  rev (lstrip_with p (rev s)).

(** [s.rstrip()] *)
Definition rstrip : str -> str := rstrip_with is_space.

(** What [int] does to its argument before reading the literal. *)
Definition int_strip (s : str) : str :=
  rstrip_with is_int_space (lstrip_with is_int_space s).

(** Value of one digit in a base up to 16, either case. *)
Definition digit_value (c : ascii) : option Z :=
  if is_digit c then Some (code c - 48)
  else if is_lower_af c then Some (code c - 87)
  else if is_upper_af c then Some (code c - 55)
  else None.

Fixpoint digits_value (base : Z) (acc : Z) (ds : str) : result Z :=
  match ds with
  | [] => Ok acc
  | c :: ds' =>
      match digit_value c with
      | Some d =>
          if d <? base then digits_value base (base * acc + d) ds'
          else Raise ValueError
      | None => Raise ValueError
      end
  end.

Definition number_value (base : Z) (ds : str) : result Z :=
  match ds with
  | [] => Raise ValueError
  | _ => digits_value base 0 ds
  end.

(** [int(text, 0)] for the literals the script builds, which all start
    with [0x]: surrounding whitespace is dropped, then at least one
    hexadecimal digit must follow the prefix. The other base-0 forms and
    the underscore separator cannot reach this call and are not modelled. *)
Definition int_base0 (text : str) : result Z :=
  match int_strip text with
  | z :: x :: ds =>
      if (code z =? 48) && ((code x =? 120) || (code x =? 88))
      then number_value 16 ds
      else Raise ValueError
  | _ => Raise ValueError
  end.

(** [int(text)]: surrounding whitespace is dropped, an optional sign, then
    at least one decimal digit (the underscore separator is not
    modelled). *)
Definition int_decimal (text : str) : result Z :=
  match int_strip text with
  | c :: ds =>
      if code c =? 45 then v <- number_value 10 ds ;; Ok (- v)
      else if code c =? 43 then number_value 10 ds
      else number_value 10 (c :: ds)
  | [] => Raise ValueError
  end.

(** [text.split(sep)] for a one-character separator. *)
Fixpoint split_on (sep : ascii -> bool) (cur : str) (s : str) : list str :=
  match s with
  | [] => [rev cur]
  | c :: s' =>
      if sep c then rev cur :: split_on sep [] s'
      else split_on sep (c :: cur) s'
  end.

Definition split (sep : ascii -> bool) (s : str) : list str :=
  split_on sep [] s.

(** [l[i]] for [i >= 0]. *)
Definition index {A : Type} (l : list A) (i : nat) : result A :=
  match nth_error l i with
  | Some a => Ok a
  | None => Raise IndexError
  end.

(** [l[-1]]. *)
Definition last_item {A : Type} (l : list A) : result A :=
  match rev l with
  | a :: _ => Ok a
  | [] => Raise IndexError
  end.

(** [l[lo:hi]] and [l[lo:]] for non-negative bounds: slices never raise. *)
Definition slice {A : Type} (lo hi : nat) (l : list A) : list A :=
  firstn (hi - lo) (skipn lo l).

Definition slice_from {A : Type} (lo : nat) (l : list A) : list A :=
  skipn lo l.

(** [l[i] = v] for [i >= 0]. *)
Fixpoint assign {A : Type} (l : list A) (i : nat) (v : A) : result (list A) :=
  match l, i with
  | [], _ => Raise IndexError
  | _ :: l', O => Ok (v :: l')
  | a :: l', S i' => l'' <- assign l' i' v ;; Ok (a :: l'')
  end.

(** [sum(l)] on ints. *)
Definition sum (l : list Z) : Z := fold_left Z.add l 0.

Definition len {A : Type} (l : list A) : Z := Z.of_nat (List.length l).

(** [max(l)] and [min(l)] on a list of ints: the first element is the
    candidate and a later one replaces it when strictly larger (smaller);
    the empty list raises [ValueError]. *)
Definition max_list (l : list Z) : result Z :=
  match l with
  | [] => Raise ValueError
  | x :: l' => Ok (fold_left (fun m y => if m <? y then y else m) l' x)
  end.

Definition min_list (l : list Z) : result Z :=
  match l with
  | [] => Raise ValueError
  | x :: l' => Ok (fold_left (fun m y => if y <? m then y else m) l' x)
  end.

(** [l.index(v)]: position of the first occurrence. *)
Fixpoint index_of (v : Z) (l : list Z) : result nat :=
  match l with
  | [] => Raise ValueError
  | x :: l' => if x =? v then Ok O else i <- index_of v l' ;; Ok (S i)
  end.

End Py.

(** ** The colour parser *)

(** [format_color]: [Ok (Some [r; g; b; a])] for a parsed token, [Ok None]
    for the script's [None]. *)
Definition format_color (color : str) : result (option (list Z)) :=
  if search_anchored hex_pattern color then
    let color_code_length := List.length color in
    if Nat.eqb color_code_length 3 then
      c0 <- Py.index color 0 ;;
      red_value <- Py.int_base0 (lit "0x" ++ [c0; c0]) ;;
      c1 <- Py.index color 1 ;;
      green_value <- Py.int_base0 (lit "0x" ++ [c1; c1]) ;;
      c2 <- Py.index color 2 ;;
      blue_value <- Py.int_base0 (lit "0x" ++ [c2; c2]) ;;
      alpha_value <- Py.int_base0 (lit "0xff") ;;
      Ok (Some [red_value; green_value; blue_value; alpha_value])
    else
      red_value <- Py.int_base0 (lit "0x" ++ Py.slice 0 2 color) ;;
      green_value <- Py.int_base0 (lit "0x" ++ Py.slice 2 4 color) ;;
      blue_value <- Py.int_base0 (lit "0x" ++ Py.slice 4 6 color) ;;
      alpha_value <-
        (if Nat.eqb color_code_length 8
         then Py.int_base0 (lit "0x" ++ Py.slice_from 6 color)
         else Py.int_base0 (lit "0xff")) ;;
      Ok (Some [red_value; green_value; blue_value; alpha_value])
  else if search_anchored decimal_pattern color then
    let fields := Py.split is_comma color in
    f0 <- Py.index fields 0 ;;
    red_value <- Py.int_decimal f0 ;;
    f1 <- Py.index fields 1 ;;
    green_value <- Py.int_decimal f1 ;;
    f2 <- Py.index fields 2 ;;
    blue_value <- Py.int_decimal f2 ;;
    f3 <- Py.index fields 3 ;;
    alpha_value <- Py.int_decimal f3 ;;
    Ok (Some [red_value; green_value; blue_value; alpha_value])
  else Ok None.

(** ** Numbers *)

Module Num.

Local Open Scope float_scope.

(** Nearest integer to [a / b], ties to even, for [0 <= a] and [0 < b]. *)
Definition div_half_even (a b : Z) : Z :=
  let q := (a / b)%Z in
  let r := (a mod b)%Z in
  if (2 * r <? b)%Z then q
  else if (b <? 2 * r)%Z then (q + 1)%Z
  else if Z.even q then q else (q + 1)%Z.

(** [a / b] written over a common power of two: [a * 2^-e] over [b] when
    [e] is negative, [a] over [b * 2^e] otherwise. *)
Definition scaled (a b e : Z) : Z * Z :=
  ((a * 2 ^ Z.max 0 (- e))%Z, (b * 2 ^ Z.max 0 e)%Z).

(** [floor (log2 (a / b))] for [0 < a] and [0 < b]. *)
Definition binade (a b : Z) : Z :=
  let d := (Z.log2 a - Z.log2 b)%Z in
  let (n, m) := scaled a b d in
  if (n <? m)%Z then (d - 1)%Z else d.

(** The binary64 nearest to [a / b] for [0 < a] and [0 < b], ties to
    even: a 53-bit significand at the exponent of the quotient's binade,
    or a shorter one at the least exponent -1074. *)
Definition nearest_quotient (sign : bool) (a b : Z) : spec_float :=
  let e := Z.max (binade a b - 52) (-1074) in
  let (n, d) := scaled a b e in
  let m := div_half_even n d in
  let (m', e') :=
    if (m =? 2 ^ 53)%Z then ((2 ^ 52)%Z, (e + 1)%Z) else (m, e) in
  if (m' =? 0)%Z then S754_zero sign
  else if (971 <? e')%Z then S754_infinity sign
  else S754_finite sign (Z.to_pos m') e'.

(** [a / b] on two ints: CPython rounds the exact quotient once, to the
    nearest float; a zero divisor and a quotient too large for a float
    raise. *)
Definition int_truediv (a b : Z) : result float :=
  if (b =? 0)%Z then Raise ZeroDivisionError
  else
    let sign := xorb (a <? 0)%Z (b <? 0)%Z in
    if (a =? 0)%Z then Ok (SF2Prim (S754_zero sign))
    else
      match nearest_quotient sign (Z.abs a) (Z.abs b) with
      | S754_infinity _ => Raise OverflowError
      | q => Ok (SF2Prim q)
      end.

(** [float(z)]: the nearest float, [OverflowError] beyond the range. *)
Definition int_to_float (z : Z) : result float :=
  if (z =? 0)%Z then Ok 0
  else
    match nearest_quotient (z <? 0)%Z (Z.abs z) 1 with
    | S754_infinity _ => Raise OverflowError
    | q => Ok (SF2Prim q)
    end.

(** A finite float to an int, the magnitude [m * 2^e] rounded by [rnd]
    when it has a fractional part; [nan] and the infinities raise as
    [int] and [round] do. *)
Definition float_to_int (rnd : Z -> Z -> Z) (x : float) : result Z :=
  match Prim2SF x with
  | S754_zero _ => Ok 0%Z
  | S754_infinity _ => Raise OverflowError
  | S754_nan => Raise ValueError
  | S754_finite s m e =>
      let v := if (e <? 0)%Z then rnd (Zpos m) (2 ^ (- e))%Z
               else (Zpos m * 2 ^ e)%Z in
      Ok (if s then (- v)%Z else v)
  end.

(** [int(x)]: towards zero. *)
Definition int_of_float : float -> result Z := float_to_int Z.div.

(** [int(round(x))] and [int(round(x, 0))]: to nearest, ties to even. *)
Definition round_to_int : float -> result Z := float_to_int div_half_even.

(** A Python number. *)
Inductive num : Type :=
| I (z : Z)
| F (x : float).

Definition to_float (a : num) : result float :=
  match a with
  | I z => int_to_float z
  | F x => Ok x
  end.

Definition arith (fz : Z -> Z -> Z) (ff : float -> float -> float)
    (a b : num) : result num :=
  match a, b with
  | I x, I y => Ok (I (fz x y))
  | _, _ => x <- to_float a ;; y <- to_float b ;; Ok (F (ff x y))
  end.

Definition add : num -> num -> result num := arith Z.add PrimFloat.add.
Definition sub : num -> num -> result num := arith Z.sub PrimFloat.sub.
Definition mul : num -> num -> result num := arith Z.mul PrimFloat.mul.

Definition truediv (a b : num) : result num :=
  match a, b with
  | I x, I y => q <- int_truediv x y ;; Ok (F q)
  | _, _ =>
      x <- to_float a ;;
      y <- to_float b ;;
      if y =? 0 then Raise ZeroDivisionError else Ok (F (x / y))
  end.

Definition neg (a : num) : num :=
  match a with
  | I z => I (- z)
  | F x => F (- x)
  end.

Definition abs (a : num) : num :=
  match a with
  | I z => I (Z.abs z)
  | F x => F (PrimFloat.abs x)
  end.

(** A float against an int, exactly: [None] when the float is [nan]. *)
Definition compare_float_int (x : float) (z : Z) : option comparison :=
  match Prim2SF x with
  | S754_nan => None
  | S754_infinity s => Some (if s then Lt else Gt)
  | S754_zero _ => Some (0 ?= z)%Z
  | S754_finite s m e =>
      let v := if s then Zneg m else Zpos m in
      Some (v * 2 ^ Z.max 0 e ?= z * 2 ^ Z.max 0 (- e))%Z
  end.

Definition compare (a b : num) : option comparison :=
  match a, b with
  | I x, I y => Some (x ?= y)%Z
  | F x, I z => compare_float_int x z
  | I z, F x => option_map CompOpp (compare_float_int x z)
  | F x, F y =>
      match (x ?= y) with
      | FEq => Some Eq
      | FLt => Some Lt
      | FGt => Some Gt
      | FNotComparable => None
      end
  end.

Definition lt (a b : num) : bool :=
  match compare a b with Some Lt => true | _ => false end.
Definition gt (a b : num) : bool := lt b a.
Definition le (a b : num) : bool :=
  match compare a b with Some Lt | Some Eq => true | _ => false end.
Definition eq (a b : num) : bool :=
  match compare a b with Some Eq => true | _ => false end.
Definition ne (a b : num) : bool := negb (eq a b).

(** [max(a, b, c)] and [min(a, b, c)]: the first argument is the
    candidate, a later one replaces it when strictly greater (less). *)
Definition max3 (a b c : num) : num :=
  let m := if gt b a then b else a in
  if gt c m then c else m.

Definition min3 (a b c : num) : num :=
  let m := if lt b a then b else a in
  if lt c m then c else m.

(** The script runs on every Python 3, and [sum] is the one built-in it
    calls whose result depends on the interpreter: CPython 3.12 changed how
    floats are summed. *)
Inductive interpreter : Type :=
| Before312
| Since312.

(** [sum(l)] before CPython 3.12: from the int [0], adding left to
    right. *)
Fixpoint sum_from (acc : num) (l : list num) : result num :=
  match l with
  | [] => Ok acc
  | x :: l' => acc' <- add acc x ;; sum_from acc' l'
  end.

(** The float loop of [sum] since CPython 3.12, Neumaier's compensated
    summation: [f] is the running sum and [c] the running compensation,
    the rounding errors of the float additions so far. An int is added to
    [f] as a float, without compensation. At the end [c] is added unless
    it is zero or not finite. *)
Fixpoint sum_compensated (f c : float) (l : list num) : result num :=
  match l with
  | [] =>
      Ok (F (match Prim2SF c with
             | S754_finite _ _ _ => f + c
             | _ => f
             end))
  | F x :: l' =>
      let t := (f + x)%float in
      let e := if (PrimFloat.abs x <=? PrimFloat.abs f)%float
               then ((f - t) + x)%float
               else ((x - t) + f)%float in
      sum_compensated t (c + e) l'
  | I z :: l' =>
      x <- int_to_float z ;;
      sum_compensated (f + x) c l'
  end.

(** [sum(l)] since CPython 3.12: ints are added as ints up to the first
    float, which is added to the int so far and starts the float loop. *)
Fixpoint sum_leading_ints (acc : Z) (l : list num) : result num :=
  match l with
  | [] => Ok (I acc)
  | I z :: l' => sum_leading_ints (acc + z) l'
  | F x :: l' =>
      a <- int_to_float acc ;;
      sum_compensated (a + x) 0 l'
  end.

Definition sum (py : interpreter) (l : list num) : result num :=
  match py with
  | Before312 => sum_from (I 0) l
  | Since312 => sum_leading_ints 0 l
  end.

End Num.

Import Num.

(** ** [str.format] with the [02x] presentation *)

Module Fmt.

Definition hex_char (d : Z) : ascii :=
  ascii_of_N (Z.to_N (if d <? 10 then 48 + d else 87 + d)).

Fixpoint hex_digits (fuel : nat) (n : Z) (acc : str) : str :=
  match fuel with
  | O => acc
  | S fuel' =>
      let acc' := hex_char (n mod 16) :: acc in
      if n / 16 =? 0 then acc' else hex_digits fuel' (n / 16) acc'
  end.

(** Lowercase hexadecimal digits of [n >= 0], most significant first. *)
Definition hex_of (n : Z) : str :=
  hex_digits (S (Z.to_nat (Z.log2 n))) n [].

Definition zero_pad (width : nat) (body : str) : str :=
  repeat "0"%char (width - List.length body) ++ body.

(** ["{:02x}".format(n)]: at least two characters, zeros after the sign. *)
Definition format_02x (n : Z) : str :=
  if n <? 0 then "-"%char :: zero_pad 1 (hex_of (- n))
  else zero_pad 2 (hex_of n).

End Fmt.

(** ** The [Color] class *)

Module Color.

(** The four attributes, each a channel divided by [255.]. *)
Record t : Type := make { r : num; g : num; b : num; a : num }.

(** [Color.__init__] *)
Definition init (r g b a : Z) : result t :=
  r' <- truediv (I r) (F 255) ;;
  g' <- truediv (I g) (F 255) ;;
  b' <- truediv (I b) (F 255) ;;
  a' <- truediv (I a) (F 255) ;;
  Ok (make r' g' b' a').

Definition hex_byte (x : num) : result str :=
  y <- mul x (F 255) ;;
  n <- match y with
       | F y' => int_of_float y'
       | I z => Ok z
       end ;;
  Ok (Fmt.format_02x n).

Definition color_to_hex (self : t) : result str :=
  hex_red <- hex_byte (r self) ;;
  hex_green <- hex_byte (g self) ;;
  hex_blue <- hex_byte (b self) ;;
  hex_alpha <- hex_byte (a self) ;;
  Ok ("#"%char :: hex_red ++ hex_green ++ hex_blue ++ hex_alpha).

Definition calc_hue (self : t) : result num :=
  let cmax := max3 (r self) (g self) (b self) in
  let cmin := min3 (r self) (g self) (b self) in
  delta <- sub cmax cmin ;;
  if eq delta (I 0) then Ok (I 0)
  else
    h <- (if eq cmax (r self) then
            d <- sub (g self) (b self) ;;
            q <- truediv d delta ;;
            mul q (I 60)
          else if eq cmax (g self) then
            d <- sub (b self) (r self) ;;
            q <- truediv d delta ;;
            mul q (I 60)
          else
            d <- sub (r self) (g self) ;;
            q <- truediv d delta ;;
            mul q (I 60)) ;;
    if lt h (I 0) then add h (I 360) else Ok h.

(** Static: takes the three channels, not [self]. *)
Definition calc_saturation (r g b : Z) : result num :=
  r <- truediv (I r) (F 255) ;;
  g <- truediv (I g) (F 255) ;;
  b <- truediv (I b) (F 255) ;;
  if ne (max3 r g b) (min3 r g b) then
    spread <- sub (max3 r g b) (min3 r g b) ;;
    total <- add (max3 r g b) (min3 r g b) ;;
    shifted <- sub total (I 1) ;;
    divisor <- sub (I 1) (abs shifted) ;;
    truediv spread divisor
  else Ok (I 0).

Definition calc_lightness (self : t) : result num :=
  total <- add (max3 (r self) (g self) (b self))
               (min3 (r self) (g self) (b self)) ;;
  truediv total (I 2).

End Color.

(** ** Reading the batch *)

(** The four channel sequences, in the order [read_colors] returns them. *)
Record batch : Type :=
  mk_batch { reds : list Z; greens : list Z; blues : list Z; alphas : list Z }.

Definition empty_batch : batch := mk_batch [] [] [] [].

(** The loop of [read_colors]: a parsed line is appended to the four
    sequences, an invalid one is reported and skipped. *)
Fixpoint read_lines (content_lines : list str) (acc : batch) : result batch :=
  match content_lines with
  | [] => Ok acc
  | line :: rest =>
      let line := Py.rstrip line in
      color_rgba <- format_color line ;;
      match color_rgba with
      | Some rgba =>
          c0 <- Py.index rgba 0 ;;
          c1 <- Py.index rgba 1 ;;
          c2 <- Py.index rgba 2 ;;
          c3 <- Py.index rgba 3 ;;
          read_lines rest
            (mk_batch (reds acc ++ [c0]) (greens acc ++ [c1])
                      (blues acc ++ [c2]) (alphas acc ++ [c3]))
      | None => read_lines rest acc
      end
  end.

(** [read_colors] on the text of the file (opening it is outside the
    model) and the tokens of the command line. *)
Definition read_colors (lines : str) (color_cli : list str) : result batch :=
  let content_lines := Py.split is_newline lines ++ color_cli in
  read_lines content_lines empty_batch.

(** ** The reducers *)

(** [int(round(x, 0))] and [int(round(x))]; an int is its own rounding. *)
Definition round_num (x : num) : result Z :=
  match x with
  | F x' => round_to_int x'
  | I z => Ok z
  end.

Definition mix (red_mix green_mix blue_mix alpha_mix : list Z)
    : result (list Z) :=
  new_red_mix <- truediv (I (Py.sum red_mix)) (I (Py.len red_mix)) ;;
  new_green_mix <- truediv (I (Py.sum green_mix)) (I (Py.len green_mix)) ;;
  new_blue_mix <- truediv (I (Py.sum blue_mix)) (I (Py.len blue_mix)) ;;
  new_alpha_mix <- truediv (I (Py.sum alpha_mix)) (I (Py.len alpha_mix)) ;;
  r <- round_num new_red_mix ;;
  g <- round_num new_green_mix ;;
  b <- round_num new_blue_mix ;;
  a <- round_num new_alpha_mix ;;
  Ok [r; g; b; a].

Definition lowest (red_low green_low blue_low alpha_low : list Z)
    : result (list Z) :=
  new_red_low <- Py.min_list red_low ;;
  new_green_low <- Py.min_list green_low ;;
  new_blue_low <- Py.min_list blue_low ;;
  new_alpha_low <- Py.min_list alpha_low ;;
  Ok [new_red_low; new_green_low; new_blue_low; new_alpha_low].

Definition highest (red_high green_high blue_high alpha_high : list Z)
    : result (list Z) :=
  new_red_high <- Py.max_list red_high ;;
  new_green_high <- Py.max_list green_high ;;
  new_blue_high <- Py.max_list blue_high ;;
  new_alpha_high <- Py.max_list alpha_high ;;
  Ok [new_red_high; new_green_high; new_blue_high; new_alpha_high].

(** The loop of [average_saturation] over [range(len(red_avg))]. *)
Fixpoint saturations_loop (red_avg green_avg blue_avg : list Z)
    (indices : list nat) (saturations : list num) : result (list num) :=
  match indices with
  | [] => Ok saturations
  | i :: rest =>
      r <- Py.index red_avg i ;;
      g <- Py.index green_avg i ;;
      b <- Py.index blue_avg i ;;
      s <- Color.calc_saturation r g b ;;
      saturations_loop red_avg green_avg blue_avg rest (saturations ++ [s])
  end.

Definition average_saturation (py : interpreter)
    (red_avg green_avg blue_avg : list Z) : result num :=
  saturations <-
    saturations_loop red_avg green_avg blue_avg
      (seq 0 (List.length red_avg)) [] ;;
  total <- Num.sum py saturations ;;
  truediv total (I (Py.len saturations)).

(** [0 <= x <= 1] *)
Definition in_unit (x : num) : bool := le (I 0) x && le x (I 1).

Definition new_cmax_first (avg_saturation cmin_mixsat : num) : result num :=
  t1 <- mul (I 2) avg_saturation ;;
  t2 <- mul avg_saturation cmin_mixsat ;;
  t3 <- sub t1 t2 ;;
  t4 <- add t3 cmin_mixsat ;;
  d <- add avg_saturation (I 1) ;;
  truediv t4 d.

Definition new_cmax_second (avg_saturation cmin_mixsat : num) : result num :=
  t1 <- mul (neg avg_saturation) cmin_mixsat ;;
  t2 <- sub t1 cmin_mixsat ;;
  d <- sub avg_saturation (I 1) ;;
  truediv t2 d.

Definition new_cmax (avg_saturation cmin_mixsat : num) : result num :=
  first <- new_cmax_first avg_saturation cmin_mixsat ;;
  second <- new_cmax_second avg_saturation cmin_mixsat ;;
  Ok (if in_unit first then first else second).

Definition new_cmin_first (avg_saturation cmax_mixsat : num) : result num :=
  t1 <- mul (I 2) avg_saturation ;;
  t2 <- mul avg_saturation cmax_mixsat ;;
  t3 <- sub t1 t2 ;;
  t4 <- sub t3 cmax_mixsat ;;
  d <- sub avg_saturation (I 1) ;;
  truediv t4 d.

Definition new_cmin_second (avg_saturation cmax_mixsat : num) : result num :=
  t1 <- mul avg_saturation cmax_mixsat ;;
  t2 <- sub cmax_mixsat t1 ;;
  d <- add avg_saturation (I 1) ;;
  truediv t2 d.

Definition new_cmin (avg_saturation cmax_mixsat : num) : result num :=
  first <- new_cmin_first avg_saturation cmax_mixsat ;;
  second <- new_cmin_second avg_saturation cmax_mixsat ;;
  Ok (if in_unit first then first else second).

(** [int(round(x * 255))] *)
Definition to_channel (x : num) : result Z :=
  y <- mul x (I 255) ;;
  round_num y.

Definition mix_saturate (red_mixsat green_mixsat blue_mixsat alpha_mixsat : list Z)
    (avg_saturation : num) : result (list Z) :=
  last_red_mixsat <- Py.last_item red_mixsat ;;
  last_green_mixsat <- Py.last_item green_mixsat ;;
  last_blue_mixsat <- Py.last_item blue_mixsat ;;
  last_alpha_mixsat <- Py.last_item alpha_mixsat ;;
  let last_color := [last_red_mixsat; last_green_mixsat; last_blue_mixsat] in
  cmax_int <- Py.max_list last_color ;;
  index_max <- Py.index_of cmax_int last_color ;;
  cmin_int <- Py.min_list last_color ;;
  index_min <- Py.index_of cmin_int last_color ;;
  cmax_mixsat <- truediv (I cmax_int) (F 255) ;;
  cmin_mixsat <- truediv (I cmin_int) (F 255) ;;
  last_saturation <-
    Color.calc_saturation last_red_mixsat last_green_mixsat last_blue_mixsat ;;
  last_color' <-
    (if gt avg_saturation last_saturation && ne cmax_mixsat cmin_mixsat then
       x <- new_cmax avg_saturation cmin_mixsat ;;
       v <- to_channel x ;;
       Py.assign last_color index_max v
     else if lt avg_saturation last_saturation && ne cmax_mixsat cmin_mixsat then
       x <- new_cmin avg_saturation cmax_mixsat ;;
       v <- to_channel x ;;
       Py.assign last_color index_min v
     else Ok last_color) ;;
  Ok (last_color' ++ [last_alpha_mixsat]).

(** ** The main block, up to the new colour *)

Inductive mode : Type := Mix | Lowest | Highest | MixSaturate.

Definition new_color (py : interpreter) (m : mode) (lines : str)
    (colorcode : list str) : result (list Z) :=
  color_values <- read_colors lines colorcode ;;
  let red := reds color_values in
  let green := greens color_values in
  let blue := blues color_values in
  let alpha := alphas color_values in
  mean_saturation <- average_saturation py red green blue ;;
  match m with
  | Mix => mix red green blue alpha
  | Lowest => lowest red green blue alpha
  | Highest => highest red green blue alpha
  | MixSaturate => mix_saturate red green blue alpha mean_saturation
  end.

(** ** The number model against the hardware *)

(** [a / b] on ints agrees with the float division of the converted
    operands (which is exact below [2^53]). *)
Definition truediv_agrees (a b : Z) : bool :=
  match int_truediv a b, int_to_float a, int_to_float b with
  | Ok q, Ok x, Ok y => PrimFloat.Leibniz.eqb q (PrimFloat.div x y)
  | _, _, _ => false
  end.

(** [float(z)] agrees with the conversion of the machine integer. *)
Definition to_float_agrees (z : Z) : bool :=
  match int_to_float z with
  | Ok x => PrimFloat.Leibniz.eqb x (PrimFloat.of_uint63 (Uint63.of_Z z))
  | Raise _ => false
  end.

(** ** Channels and finite checks *)

(** A channel as the data model has it. *)
Definition channel (z : Z) : Prop := 0 <= z <= 255.

(** [0; 1; ...; n - 1] *)
Definition range (n : nat) : list Z := map Z.of_nat (seq 0 n).

Definition num_eqb (x y : num) : bool :=
  match x, y with
  | I a, I b => a =? b
  | F a, F b => PrimFloat.Leibniz.eqb a b
  | _, _ => false
  end.

Definition returns (m : result num) (v : num) : bool :=
  match m with
  | Ok x => num_eqb x v
  | Raise _ => false
  end.

(** [z / 255.], the normalisation that [Color.__init__], [calc_saturation]
    and [mix_saturate] all apply to a channel. *)
Definition normalized (z : Z) : result num := truediv (I z) (F 255).

(** What C9 says of one grey level, as a check that can be run. *)
Definition gray_check (v : Z) : bool :=
  match normalized v with
  | Ok x =>
      let c := Color.make x x x x in
      returns (Color.calc_saturation v v v) (I 0) &&
      returns (Color.calc_hue c) (I 0) &&
      returns (Color.calc_lightness c) x &&
      match x with F _ => Num.eq x x | I _ => false end
  | Raise _ => false
  end.

(** ** What the reducers are measured against *)

(** [|z - sum(l) / len(l)| <= 1/2], cleared of fractions: [z] is an
    integer nearest to the exact mean of [l]. *)
Definition nearest_to_mean (z : Z) (l : list Z) : Prop :=
  2 * Z.abs (z * Py.len l - Py.sum l) <= Py.len l.

(** One channel sequence of a batch: not empty, made of channels, and of
    a length a list can have (below [2^44], past which the quotient of the
    sum by the length is no longer spaced finely enough to round to the
    right integer). *)
Definition channel_sequence (l : list Z) : Prop :=
  l <> [] /\ Forall channel l /\ Py.len l < 2 ^ 44.

(** The text of the three-line file of the end-to-end example. *)
Definition example_file : str :=
  lit "ff0000" ++ [ascii_of_nat 10] ++ lit "00ff00" ++ [ascii_of_nat 10] ++
  lit "0000ff".

(** The samples of a batch, one triple per position. *)
Fixpoint zip3 (rs gs bs : list Z) : list (Z * Z * Z) :=
  match rs, gs, bs with
  | r :: rs', g :: gs', b :: bs' => (r, g, b) :: zip3 rs' gs' bs'
  | _, _, _ => []
  end.

(** The HSL saturation of each sample, on its own. *)
Fixpoint saturation_of_each (samples : list (Z * Z * Z)) : result (list num) :=
  match samples with
  | [] => Ok []
  | (r, g, b) :: rest =>
      s <- Color.calc_saturation r g b ;;
      others <- saturation_of_each rest ;;
      Ok (s :: others)
  end.

(** [sum(l) / len(l)] on a list of numbers, in the interpreter's
    arithmetic. *)
Definition arithmetic_mean (py : interpreter) (l : list num) : result num :=
  total <- Num.sum py l ;;
  truediv total (I (Py.len l)).

(** What [calc_saturation] returns: the int [0] or a float. *)
Definition saturation_shape (s : num) : bool :=
  match s with
  | I z => z =? 0
  | F _ => true
  end.

(** [calc_saturation] after the three normalisations, on the greatest and
    the least of the normalised channels. *)
Definition saturation_of_extremes (cmax cmin : num) : result num :=
  if ne cmax cmin then
    spread <- sub cmax cmin ;;
    total <- add cmax cmin ;;
    shifted <- sub total (I 1) ;;
    divisor <- sub (I 1) (abs shifted) ;;
    truediv spread divisor
  else Ok (I 0).

Definition level (z : Z) : num :=
  match normalized z with
  | Ok x => x
  | Raise _ => I 0
  end.

(** The 256 normalised channel values. *)
Definition levels : list num := map level (range 256).

Definition extremes_check (cmax cmin : num) : bool :=
  match saturation_of_extremes cmax cmin with
  | Ok s => saturation_shape s
  | Raise _ => false
  end.

(** ** The hex round trip, one byte at a time *)

Definition hex_letters : str := lit "0123456789abcdef".

Fixpoint str_eqb (s t : str) : bool :=
  match s, t with
  | [], [] => true
  | c :: s', d :: t' => Ascii.eqb c d && str_eqb s' t'
  | _, _ => false
  end.

(** Two hex digits read by [int], normalised by [Color.__init__] and
    written back by [color_to_hex] are the same two digits. *)
Definition byte_check (c1 c2 : ascii) : bool :=
  match Py.int_base0 (lit "0x" ++ [c1; c2]) with
  | Ok v =>
      (0 <=? v) && (v <=? 255) &&
      match normalized v with
      | Ok x =>
          match Color.hex_byte x with
          | Ok s => str_eqb s [c1; c2]
          | Raise _ => false
          end
      | Raise _ => false
      end
  | Raise _ => false
  end.

(** The file of two valid tokens on which [mix_saturate] leaves the
    unit interval. *)
Definition failing_file : str :=
  lit "010000" ++ [ascii_of_nat 10] ++ lit "ff0909".

(** ** Decimal tokens *)

(** One field of a decimal token: one to three digits. *)
Definition decimal_field (f : str) : Prop :=
  forallb is_digit f = true /\ (1 <= List.length f <= 3)%nat.

(** [f1,f2,f3,f4] *)
Definition decimal_token (f1 f2 f3 f4 : str) : str :=
  f1 ++ ","%char :: f2 ++ ","%char :: f3 ++ ","%char :: f4.

(** The number a string of decimal digits denotes. *)
Definition decimal_value (ds : str) : Z :=
  fold_left (fun acc c => 10 * acc + (code c - 48)) ds 0.

(** What the parser can return for one channel: up to three decimal
    digits. *)
Definition parsed_channel (z : Z) : Prop := 0 <= z <= 999.

(** ** What a batch is *)

(** The invariant of the reader: four sequences of one length, made of
    values the parser can return. *)
Definition batch_ok (b : batch) : Prop :=
  List.length (greens b) = List.length (reds b) /\
  List.length (blues b) = List.length (reds b) /\
  List.length (alphas b) = List.length (reds b) /\
  Forall parsed_channel (reds b) /\ Forall parsed_channel (greens b) /\
  Forall parsed_channel (blues b) /\ Forall parsed_channel (alphas b).

(** What [format_color] returns for a token it parses: four values, each of
    up to three decimal digits. *)
Definition parsed_sample (rgba : list Z) : Prop :=
  exists r g b a,
    rgba = [r; g; b; a] /\ parsed_channel r /\ parsed_channel g /\
    parsed_channel b /\ parsed_channel a.

(** The one shape of token on which [format_color] raises: three lowercase
    hex digits and a newline. *)
Definition short_hex_newline (tok : str) : Prop :=
  exists c1 c2 c3,
    is_lower_hex c1 = true /\ is_lower_hex c2 = true /\
    is_lower_hex c3 = true /\ tok = [c1; c2; c3; ascii_of_nat 10].

(** A batch with one more sample at its end. *)
Definition add_sample (b : batch) (r g bl a : Z) : batch :=
  mk_batch (reds b ++ [r]) (greens b ++ [g]) (blues b ++ [bl])
           (alphas b ++ [a]).

(** ** What [lowest] and [highest] are measured against *)

(** [m] is an element of [l] below (above) all the others. *)
Definition is_least (m : Z) (l : list Z) : Prop := In m l /\ Forall (Z.le m) l.
Definition is_greatest (m : Z) (l : list Z) : Prop :=
  In m l /\ Forall (fun x => x <= m) l.

(** ** Further finite checks *)

(** A single sample is its own average: neither guard of [mix_saturate]
    holds between the mean of one saturation and that saturation. *)
Definition single_check (py : interpreter) (cmax cmin : num) : bool :=
  match saturation_of_extremes cmax cmin with
  | Ok s =>
      match arithmetic_mean py [s] with
      | Ok avg => negb (gt avg s) && negb (lt avg s)
      | Raise _ => false
      end
  | Raise _ => false
  end.

(** A saturation is comparable with 1. *)
Definition unit_check (cmax cmin : num) : bool :=
  match saturation_of_extremes cmax cmin with
  | Ok s => Num.eq (F 1) s || gt (F 1) s || lt (F 1) s
  | Raise _ => false
  end.

(** The channels with their normalised values. *)
Definition level_table : list (Z * num) :=
  map (fun z => (z, level z)) (range 256).

(** Different channels have different normalised values. *)
Definition distinct_check (p q : Z * num) : bool :=
  (fst p =? fst q) || ne (snd p) (snd q).

(** The greatest saturation a sample of channels has: [1 + 2^-47], just
    above 1, from the rounding of [1 - |max + min - 1|]. *)
Definition saturation_cap : num := F (1 + 0x1p-47)%float.

(** [calc_lightness] on the greatest and the least normalised channel. *)
Definition lightness_of_extremes (cmax cmin : num) : result num :=
  total <- add cmax cmin ;;
  truediv total (I 2).

(** Two normalised channels are comparable. *)
Definition order_check (x y : num) : bool := lt x y || le y x.

(** Saturation and lightness of ordered extremes stay in their ranges. *)
Definition range_check (cmax cmin : num) : bool :=
  negb (le cmin cmax) ||
  match saturation_of_extremes cmax cmin, lightness_of_extremes cmax cmin with
  | Ok s, Ok l =>
      le (I 0) s && le s saturation_cap && le (I 0) l && le l (I 1)
  | _, _ => false
  end.

(** A channel written by [color_to_hex] is two lowercase hex digits that
    [int] reads back as the channel. *)
Definition encode_check (v : Z) : bool :=
  match normalized v with
  | Ok x =>
      match Color.hex_byte x with
      | Ok [c1; c2] =>
          is_lower_hex c1 && is_lower_hex c2 &&
          match Py.int_base0 (lit "0x" ++ [c1; c2]) with
          | Ok v' => v' =? v
          | Raise _ => false
          end
      | _ => false
      end
  | Raise _ => false
  end.

(** The hue of the three colours that have one channel [hi] above two
    equal channels [lo]. *)
Definition hue_check (hi lo : Z) : bool :=
  negb (lo <? hi) ||
  match normalized hi, normalized lo with
  | Ok x, Ok y =>
      returns (Color.calc_hue (Color.make x y y x)) (F 0) &&
      returns (Color.calc_hue (Color.make y x y x)) (F 0) &&
      returns (Color.calc_hue (Color.make y y x x)) (F 0)
  | _, _ => false
  end.

(** * Properties *)

(** ** The result monad *)

Lemma bind_ok {A B : Type} (m : result A) (k : A -> result B) (b : B) :
  bind m k = Ok b -> exists a, m = Ok a /\ k a = Ok b.
Proof.
  destruct m as [a|e]; simpl; intros H; [eauto | discriminate].
Qed.

Ltac bind_inv H :=
  let a := fresh "v" in
  let Ha := fresh "Hv" in
  apply bind_ok in H; destruct H as [a [Ha H]].

(** ** Character classes *)

Lemma upper_not_lower_hex c : is_upper_af c = true -> is_lower_hex c = false.
Proof.
  unfold is_upper_af, is_lower_hex, is_digit, is_lower_af, char_between.
  intros H. apply andb_prop in H. destruct H as [H1 H2].
  apply Z.leb_le in H1. apply Z.leb_le in H2.
  apply orb_false_intro; apply andb_false_iff.
  - right. apply Z.leb_gt. lia.
  - left. apply Z.leb_gt. lia.
Qed.

Lemma upper_not_digit c : is_upper_af c = true -> is_digit c = false.
Proof.
  intros H. apply upper_not_lower_hex in H.
  unfold is_lower_hex in H. apply orb_false_elim in H. tauto.
Qed.

Lemma upper_not_comma c : is_upper_af c = true -> is_comma c = false.
Proof.
  unfold is_upper_af, is_comma, char_between. intros H.
  apply andb_prop in H. destruct H as [H1 _]. apply Z.leb_le in H1.
  apply Z.eqb_neq. lia.
Qed.

Lemma upper_not_newline c : is_upper_af c = true -> is_newline c = false.
Proof.
  unfold is_upper_af, is_newline, char_between. intros H.
  apply andb_prop in H. destruct H as [H1 _]. apply Z.leb_le in H1.
  apply Z.eqb_neq. lia.
Qed.

(** ** Regular expressions *)

Module RegexFacts.

Lemma void_not_nullable r : void r = true -> nullable r = false.
Proof.
  induction r; simpl; intros H; try discriminate; auto.
  - apply orb_prop in H. apply andb_false_iff. destruct H; auto.
  - apply andb_prop in H. destruct H as [H1 H2].
    rewrite IHr1, IHr2; auto.
Qed.

Lemma void_deriv r c : void r = true -> void (deriv c r) = true.
Proof.
  induction r; simpl; intros H; try discriminate; auto.
  - apply orb_prop in H. destruct H as [H|H].
    + rewrite (void_not_nullable _ H), (IHr1 H). reflexivity.
    + rewrite H, orb_true_r. simpl.
      destruct (nullable r1); auto.
  - apply andb_prop in H. destruct H as [H1 H2].
    rewrite IHr1, IHr2; auto.
Qed.

Lemma void_no_match r s : void r = true -> fullmatch r s = false.
Proof.
  revert r. induction s as [|c s IH]; simpl; intros r H.
  - now apply void_not_nullable.
  - apply IH. now apply void_deriv.
Qed.

Lemma deriv_rejects r c : accepts_char r c = false -> void (deriv c r) = true.
Proof.
  induction r; simpl; intros H; auto.
  - now rewrite H.
  - apply orb_false_elim in H. destruct H as [H1 H2].
    rewrite (IHr1 H1). simpl. destruct (nullable r1); auto.
  - apply orb_false_elim in H. destruct H as [H1 H2].
    rewrite IHr1, IHr2; auto.
  - destruct hi; simpl; auto. now rewrite IHr.
Qed.

Lemma accepts_deriv r c x :
  accepts_char (deriv c r) x = true -> accepts_char r x = true.
Proof.
  induction r; simpl; intros H; try discriminate.
  - destruct (p c); discriminate.
  - apply orb_prop in H. destruct H as [H|H].
    + apply orb_prop in H. destruct H as [H|H].
      * rewrite IHr1; auto.
      * rewrite H. apply orb_true_r.
    + destruct (nullable r1); [|discriminate].
      rewrite IHr2; auto. apply orb_true_r.
  - apply orb_prop in H. destruct H as [H|H].
    + rewrite IHr1; auto.
    + rewrite IHr2; auto. apply orb_true_r.
  - destruct hi; simpl in H; [discriminate|].
    apply orb_prop in H. destruct H; auto.
Qed.

(** A matched string is made of characters of the pattern's classes. *)
Lemma fullmatch_chars r s c :
  fullmatch r s = true -> In c s -> accepts_char r c = true.
Proof.
  revert r. induction s as [|x s IH]; simpl; intros r H Hin; [tauto|].
  destruct Hin as [->|Hin].
  - destruct (accepts_char r c) eqn:E; auto.
    rewrite (void_no_match _ s (deriv_rejects _ _ E)) in H. discriminate.
  - apply (accepts_deriv r x). now apply IH.
Qed.

(** The same for [search_anchored], where the last character may instead
    be the newline that [$] tolerates. *)
Lemma search_anchored_chars r s c :
  search_anchored r s = true -> In c s ->
  accepts_char r c = true \/ is_newline c = true.
Proof.
  unfold search_anchored. intros H Hin.
  apply orb_prop in H. destruct H as [H|H].
  - left. eapply fullmatch_chars; eauto.
  - destruct (rev s) as [|x body] eqn:E; [discriminate|].
    apply andb_prop in H. destruct H as [Hx Hb].
    apply in_rev in Hin. rewrite E in Hin. destruct Hin as [->|Hin]; auto.
    left. eapply fullmatch_chars; eauto. now apply in_rev in Hin.
Qed.

Lemma fullmatch_alt r1 r2 s :
  fullmatch (Alt r1 r2) s = fullmatch r1 s || fullmatch r2 s.
Proof.
  revert r1 r2. induction s as [|c s IH]; simpl; intros; auto.
Qed.

Lemma fullmatch_empty s : fullmatch Empty s = false.
Proof. apply void_no_match. reflexivity. Qed.

Lemma fullmatch_cat_empty r s : fullmatch (Cat Empty r) s = false.
Proof. apply void_no_match. reflexivity. Qed.

Lemma fullmatch_cat_eps r s : fullmatch (Cat Eps r) s = fullmatch r s.
Proof.
  destruct s as [|c s]; simpl; auto.
  now rewrite fullmatch_alt, fullmatch_cat_empty.
Qed.

(** [p{lo,hi}] for a character class [p]. *)
Lemma fullmatch_rep_class p s : forall lo hi,
  fullmatch (Rep (Class p) lo hi) s =
  forallb p s && (Nat.leb lo (List.length s) && Nat.leb (List.length s) hi).
Proof.
  induction s as [|c s IH]; intros lo hi.
  - simpl. destruct lo; simpl; auto.
  - simpl. destruct hi as [|hi'].
    + rewrite fullmatch_empty. now rewrite !andb_false_r.
    + destruct (p c) eqn:E; simpl.
      * rewrite fullmatch_cat_eps, IH. destruct lo; simpl; auto.
      * apply fullmatch_cat_empty.
Qed.

End RegexFacts.

Import RegexFacts.

(** ** [format_color] *)

Lemma hex_pattern_rejects_upper c :
  is_upper_af c = true -> accepts_char hex_pattern c = false.
Proof.
  intros H. simpl. now rewrite (upper_not_lower_hex _ H).
Qed.

Lemma decimal_pattern_rejects_upper c :
  is_upper_af c = true -> accepts_char decimal_pattern c = false.
Proof.
  intros H. simpl.
  now rewrite (upper_not_digit _ H), (upper_not_comma _ H).
Qed.

Lemma upper_blocks_search r tok c :
  accepts_char r c = false -> is_upper_af c = true -> In c tok ->
  search_anchored r tok = false.
Proof.
  intros Hr Hu Hin. destruct (search_anchored r tok) eqn:E; auto.
  destruct (search_anchored_chars _ _ _ E Hin) as [H|H].
  - congruence.
  - rewrite (upper_not_newline _ Hu) in H. discriminate.
Qed.

(** C10. Hex parsing is lowercase-only: a token that contains one of the
    letters [A]..[F] is never parsed ([format_color] returns [None]); the
    tokens [FF0000] and [ABC] are instances, while [ff0000] and [abc]
    parse. *)
Theorem format_color_uppercase_rejected :
  (forall (tok : str) (c : ascii),
      In c tok -> is_upper_af c = true -> format_color tok = Ok None) /\
  format_color (lit "FF0000") = Ok None /\
  format_color (lit "ABC") = Ok None /\
  format_color (lit "ff0000") = Ok (Some [255; 0; 0; 255]) /\
  format_color (lit "abc") = Ok (Some [170; 187; 204; 255]).
Proof.
  split; [|repeat split; reflexivity].
  intros tok c Hin Hu. unfold format_color.
  rewrite (upper_blocks_search _ _ _ (hex_pattern_rejects_upper _ Hu) Hu Hin).
  rewrite (upper_blocks_search _ _ _ (decimal_pattern_rejects_upper _ Hu) Hu Hin).
  reflexivity.
Qed.

Lemma format_color_uppercase_rejected_witness :
  In "F"%char (lit "FF0000") /\ is_upper_af "F"%char = true /\
  format_color (lit "FF0000") = Ok None.
Proof.
  assert (Hin : In "F"%char (lit "FF0000")) by (simpl; auto).
  assert (Hu : is_upper_af "F"%char = true) by reflexivity.
  exact (conj Hin (conj Hu
    (proj1 format_color_uppercase_rejected (lit "FF0000") "F"%char Hin Hu))).
Defined.

(** C1. The parser does not keep decimal channels within [0, 255]: the
    token [999,0,0,255] is parsed, and its red channel is 999. *)
Theorem format_color_decimal_out_of_range :
  format_color (lit "999,0,0,255") = Ok (Some [999; 0; 0; 255]) /\
  ~ channel 999.
Proof.
  split; [reflexivity | unfold channel; lia].
Qed.

(** A three-digit hex token followed by a newline passes the pattern (its
    [$] tolerates the newline) and then fails in [int]: the parser neither
    returns a colour nor [None]. [read_colors] strips its lines first. *)
Lemma format_color_newline_raises :
  format_color (lit "abc" ++ [ascii_of_nat 10]) = Raise ValueError.
Proof. reflexivity. Qed.

(** ** The number model against the hardware *)

(** On the sums of up to three channels over the lengths up to 16, the
    correctly rounded quotient of two ints is the float division. *)
Lemma int_truediv_is_float_division :
  forallb (fun a => forallb (truediv_agrees a) (map Z.succ (range 16)))
          (range 766) = true.
Proof. vm_compute. reflexivity. Qed.

Lemma int_to_float_is_conversion :
  forallb to_float_agrees
    (range 1024 ++ [2 ^ 53 + 1; 2 ^ 53 + 3; 2 ^ 60 + 255; 2 ^ 62 - 1]) = true.
Proof. vm_compute. reflexivity. Qed.

(** ** Finite checks *)

Lemma range_forallb (P : Z -> bool) (n : nat) :
  forallb P (range n) = true ->
  forall z, 0 <= z < Z.of_nat n -> P z = true.
Proof.
  intros H z Hz. rewrite forallb_forall in H. apply H.
  unfold range. rewrite <- (Z2Nat.id z) by lia.
  apply in_map, in_seq. lia.
Qed.

Lemma num_eqb_eq x y : num_eqb x y = true -> x = y.
Proof.
  destruct x as [a|a], y as [b|b]; simpl; intros H; try discriminate.
  - apply Z.eqb_eq in H. now subst.
  - apply FloatAxioms.Leibniz.eqb_spec in H. now subst.
Qed.

Lemma returns_eq m v : returns m v = true -> m = Ok v.
Proof.
  destruct m as [x|e]; simpl; intros H; [|discriminate].
  now rewrite (num_eqb_eq _ _ H).
Qed.

Lemma gray_levels : forallb gray_check (range 256) = true.
Proof. vm_compute. reflexivity. Qed.

(** Every channel normalises to a float that equals itself, and a grey of
    that level has saturation 0, hue 0 and its own level as lightness. *)
Lemma gray_level v :
  channel v ->
  exists x,
    normalized v = Ok (F x) /\ Num.eq (F x) (F x) = true /\
    Color.calc_saturation v v v = Ok (I 0) /\
    Color.calc_hue (Color.make (F x) (F x) (F x) (F x)) = Ok (I 0) /\
    Color.calc_lightness (Color.make (F x) (F x) (F x) (F x)) = Ok (F x).
Proof.
  intros Hv.
  assert (H : gray_check v = true).
  { apply (range_forallb _ 256 gray_levels). unfold channel in Hv. lia. }
  unfold gray_check in H. destruct (normalized v) as [x|e]; [|discriminate].
  repeat (apply andb_prop in H; destruct H as [H ?]).
  destruct x as [z|x]; [discriminate|].
  exists x. repeat split; auto using returns_eq.
Qed.

(** C9. For every pure grey (R = G = B in [0, 255]) [calc_saturation]
    returns 0, [calc_hue] returns 0 and [calc_lightness] returns R / 255. *)
Theorem gray_saturation_hue_lightness (v alpha : Z) :
  channel v -> channel alpha ->
  Color.calc_saturation v v v = Ok (I 0) /\
  exists c,
    Color.init v v v alpha = Ok c /\
    Color.calc_hue c = Ok (I 0) /\
    Color.calc_lightness c = normalized v.
Proof.
  intros Hv Ha.
  destruct (gray_level v Hv) as (x & Hx & _ & Hs & Hh & Hl).
  destruct (gray_level alpha Ha) as (y & Hy & _).
  split; [exact Hs|].
  exists (Color.make (F x) (F x) (F x) (F y)). split; [|split].
  - unfold Color.init. fold (normalized v). fold (normalized alpha).
    rewrite Hx, Hy. reflexivity.
  - exact Hh.
  - rewrite Hx. exact Hl.
Qed.

Lemma gray_saturation_hue_lightness_witness :
  Color.calc_saturation 128 128 128 = Ok (I 0) /\
  exists c,
    Color.init 128 128 128 255 = Ok c /\
    Color.calc_hue c = Ok (I 0) /\
    Color.calc_lightness c = normalized 128.
Proof.
  apply (gray_saturation_hue_lightness 128 255); unfold channel; lia.
Defined.

(** ** [lowest] and [highest] *)

Lemma min_list_snoc l x :
  l <> [] ->
  exists m, Py.min_list l = Ok m /\
            Py.min_list (l ++ [x]) = Ok (if x <? m then x else m).
Proof.
  destruct l as [|y l]; [congruence|]. intros _. simpl.
  eexists. split; [reflexivity|]. now rewrite fold_left_app.
Qed.

Lemma max_list_snoc l x :
  l <> [] ->
  exists m, Py.max_list l = Ok m /\
            Py.max_list (l ++ [x]) = Ok (if m <? x then x else m).
Proof.
  destruct l as [|y l]; [congruence|]. intros _. simpl.
  eexists. split; [reflexivity|]. now rewrite fold_left_app.
Qed.

Lemma min_step_le x m : (if x <? m then x else m) <= m.
Proof. destruct (Z.ltb_spec x m); lia. Qed.

Lemma max_step_ge x m : m <= (if m <? x then x else m).
Proof. destruct (Z.ltb_spec m x); lia. Qed.

(** C7. [lowest] and [highest] are component-wise monotonic: appending one
    sample to a non-empty batch never raises a channel of [lowest] and never
    lowers a channel of [highest]. *)
Theorem lowest_highest_monotonic (rs gs bs als : list Z) (r g b a : Z) :
  rs <> [] -> gs <> [] -> bs <> [] -> als <> [] ->
  exists lo lo' hi hi',
    lowest rs gs bs als = Ok lo /\
    lowest (rs ++ [r]) (gs ++ [g]) (bs ++ [b]) (als ++ [a]) = Ok lo' /\
    Forall2 Z.le lo' lo /\
    highest rs gs bs als = Ok hi /\
    highest (rs ++ [r]) (gs ++ [g]) (bs ++ [b]) (als ++ [a]) = Ok hi' /\
    Forall2 Z.le hi hi'.
Proof.
  intros Hr Hg Hb Ha.
  destruct (min_list_snoc rs r Hr) as (mr & Hmr & Hmr').
  destruct (min_list_snoc gs g Hg) as (mg & Hmg & Hmg').
  destruct (min_list_snoc bs b Hb) as (mb & Hmb & Hmb').
  destruct (min_list_snoc als a Ha) as (ma & Hma & Hma').
  destruct (max_list_snoc rs r Hr) as (xr & Hxr & Hxr').
  destruct (max_list_snoc gs g Hg) as (xg & Hxg & Hxg').
  destruct (max_list_snoc bs b Hb) as (xb & Hxb & Hxb').
  destruct (max_list_snoc als a Ha) as (xa & Hxa & Hxa').
  unfold lowest, highest.
  rewrite Hmr, Hmg, Hmb, Hma, Hmr', Hmg', Hmb', Hma'.
  rewrite Hxr, Hxg, Hxb, Hxa, Hxr', Hxg', Hxb', Hxa'. simpl.
  do 4 eexists. repeat split; try reflexivity.
  - repeat constructor; apply min_step_le.
  - repeat constructor; apply max_step_ge.
Qed.

Lemma lowest_highest_monotonic_witness :
  exists lo lo' hi hi',
    lowest [10; 200] [20; 30] [40; 5] [255; 255] = Ok lo /\
    lowest ([10; 200] ++ [7]) ([20; 30] ++ [90]) ([40; 5] ++ [5])
           ([255; 255] ++ [0]) = Ok lo' /\
    Forall2 Z.le lo' lo /\
    highest [10; 200] [20; 30] [40; 5] [255; 255] = Ok hi /\
    highest ([10; 200] ++ [7]) ([20; 30] ++ [90]) ([40; 5] ++ [5])
            ([255; 255] ++ [0]) = Ok hi' /\
    Forall2 Z.le hi hi'.
Proof.
  apply (lowest_highest_monotonic [10; 200] [20; 30] [40; 5] [255; 255]
           7 90 5 0); discriminate.
Defined.

(** ** Correctly rounded quotients *)

Module NumFacts.

Lemma div_half_even_spec a b :
  0 <= a -> 0 < b -> 2 * Z.abs (div_half_even a b * b - a) <= b.
Proof.
  intros Ha Hb. unfold div_half_even.
  pose proof (Z.div_mod a b ltac:(lia)) as E.
  pose proof (Z.mod_pos_bound a b Hb) as Hr.
  destruct (Z.ltb_spec (2 * (a mod b)) b);
    [|destruct (Z.ltb_spec b (2 * (a mod b))); [|destruct (Z.even (a / b))]];
    nia.
Qed.

Lemma div_half_even_ge c a b :
  0 <= a -> 0 < b -> c * b <= a -> c <= div_half_even a b.
Proof.
  intros Ha Hb Hc. pose proof (div_half_even_spec a b Ha Hb). nia.
Qed.

Lemma div_half_even_le c a b :
  0 <= a -> 0 < b -> a <= c * b -> div_half_even a b <= c.
Proof.
  intros Ha Hb Hc. pose proof (div_half_even_spec a b Ha Hb). nia.
Qed.

Lemma digits2_pos_bounds p :
  2 ^ (Zpos (digits2_pos p) - 1) <= Zpos p < 2 ^ Zpos (digits2_pos p).
Proof.
  induction p as [p IH|p IH|]; cbn [digits2_pos].
  - rewrite Pos2Z.inj_succ.
    replace (Z.succ (Zpos (digits2_pos p)) - 1) with (Z.succ (Zpos (digits2_pos p) - 1)) by lia.
    rewrite !Z.pow_succ_r by lia. lia.
  - rewrite Pos2Z.inj_succ.
    replace (Z.succ (Zpos (digits2_pos p)) - 1) with (Z.succ (Zpos (digits2_pos p) - 1)) by lia.
    rewrite !Z.pow_succ_r by lia. lia.
  - simpl. lia.
Qed.

Lemma digits2_pos_unique p n :
  2 ^ (n - 1) <= Zpos p < 2 ^ n -> Zpos (digits2_pos p) = n.
Proof.
  intros [H1 H2]. pose proof (digits2_pos_bounds p) as [H3 H4].
  assert (0 < n).
  { destruct (Z.ltb_spec 0 n); auto.
    rewrite (Z.pow_neg_r 2 (n - 1)) in H1 by lia.
    destruct (Z.eq_dec n 0) as [->|]; [simpl in H2; lia|].
    rewrite (Z.pow_neg_r 2 n) in H2 by lia. lia. }
  assert (n - 1 < Zpos (digits2_pos p)).
  { apply (Z.pow_lt_mono_r_iff 2); lia. }
  assert (Zpos (digits2_pos p) - 1 < n).
  { apply (Z.pow_lt_mono_r_iff 2); lia. }
  lia.
Qed.

Lemma pow2_pos n : 0 <= n -> 0 < 2 ^ n.
Proof. intros. apply Z.pow_pos_nonneg; lia. Qed.

(** The test of [binade], read at any common scale. *)
Lemma scaled_lt a b d t :
  0 <= t -> 0 <= d + t ->
  (fst (scaled a b d) <? snd (scaled a b d)) = (a * 2 ^ t <? b * 2 ^ (d + t)).
Proof.
  intros Ht Hdt. unfold scaled. cbn [fst snd].
  set (u := Z.max 0 (- d)). set (w := t - u).
  assert (Hw : 0 <= w) by (unfold w, u; lia).
  assert (Hu : 0 <= u) by (unfold u; lia).
  replace t with (u + w) at 1 by (unfold w; lia).
  replace (d + t) with (Z.max 0 d + w) by (unfold w, u; lia).
  rewrite !Z.pow_add_r by lia.
  pose proof (pow2_pos w Hw).
  destruct (Z.ltb_spec (a * 2 ^ u) (b * 2 ^ Z.max 0 d));
    destruct (Z.ltb_spec (a * (2 ^ u * 2 ^ w)) (b * (2 ^ Z.max 0 d * 2 ^ w)));
    auto; nia.
Qed.

Lemma binade_unfold a b :
  binade a b =
  let d := Z.log2 a - Z.log2 b in
  if fst (scaled a b d) <? snd (scaled a b d) then d - 1 else d.
Proof. unfold binade. now destruct (scaled a b (Z.log2 a - Z.log2 b)). Qed.

Lemma binade_spec a b t :
  0 < a -> 0 < b -> 0 <= t -> 0 <= binade a b + t ->
  b * 2 ^ (binade a b + t) <= a * 2 ^ t < b * 2 ^ (binade a b + t + 1).
Proof.
  rewrite binade_unfold. cbv zeta.
  set (d := Z.log2 a - Z.log2 b). intros Ha Hb Ht Hk.
  pose proof (Z.log2_spec a Ha) as [La1 La2].
  pose proof (Z.log2_spec b Hb) as [Lb1 Lb2].
  pose proof (Z.log2_nonneg a) as Hla. pose proof (Z.log2_nonneg b) as Hlb.
  pose proof (pow2_pos t Ht) as Pt.
  destruct (fst (scaled a b d) <? snd (scaled a b d)) eqn:E.
  - (* the quotient lies below 2^d *)
    assert (Hdt : 0 <= d + t) by lia.
    rewrite (scaled_lt a b d t Ht Hdt) in E. apply Z.ltb_lt in E.
    replace (d - 1 + t + 1) with (d + t) by lia. split; [|exact E].
    assert (b * 2 ^ (d - 1 + t) < 2 ^ Z.log2 a * 2 ^ t).
    { rewrite <- Z.pow_add_r by lia.
      replace (Z.log2 a + t) with (Z.succ (Z.log2 b) + (d - 1 + t)) by (unfold d; lia).
      rewrite (Z.pow_add_r 2 (Z.succ (Z.log2 b)) (d - 1 + t)) by lia.
      pose proof (pow2_pos (d - 1 + t) Hk). nia. }
    nia.
  - assert (Hdt : 0 <= d + t) by lia.
    rewrite (scaled_lt a b d t Ht Hdt) in E. apply Z.ltb_ge in E.
    split; [exact E|].
    assert (2 ^ Z.succ (Z.log2 a) * 2 ^ t <= b * 2 ^ (d + t + 1)).
    { rewrite <- Z.pow_add_r by lia.
      replace (Z.succ (Z.log2 a) + t) with (Z.log2 b + (d + t + 1)) by (unfold d; lia).
      rewrite (Z.pow_add_r 2 (Z.log2 b) (d + t + 1)) by lia.
      pose proof (pow2_pos (d + t + 1) ltac:(lia)). nia. }
    nia.
Qed.

Lemma log2_gap a b n :
  0 < a -> 0 < b -> 0 <= n -> a < b * 2 ^ n -> Z.log2 a - Z.log2 b <= n.
Proof.
  intros Ha Hb Hn H.
  pose proof (Z.log2_spec a Ha) as [La _].
  pose proof (Z.log2_spec b Hb) as [_ Lb].
  pose proof (Z.log2_nonneg a). pose proof (Z.log2_nonneg b).
  assert (2 ^ Z.log2 a < 2 ^ (Z.succ (Z.log2 b) + n)).
  { rewrite Z.pow_add_r by lia. pose proof (pow2_pos n Hn). nia. }
  assert (Z.log2 a < Z.succ (Z.log2 b) + n).
  { apply (Z.pow_lt_mono_r_iff 2); lia. }
  lia.
Qed.

(** The float nearest to [a / b] when the quotient lies between [2^-51] and
    [2^51]: a 53-bit significand [m] at a negative exponent [e], within
    half a unit in the last place of the quotient, and a valid binary64. *)
Lemma nearest_quotient_spec s a b :
  0 < a -> 0 < b -> a < b * 2 ^ 51 -> b < a * 2 ^ 51 ->
  exists m e,
    nearest_quotient s a b = S754_finite s m e /\
    e < 0 /\
    2 ^ 52 <= Zpos m < 2 ^ 53 /\
    2 * Z.abs (Zpos m * b - a * 2 ^ (- e)) <= b /\
    valid_binary (S754_finite s m e) = true.
Proof.
  intros Ha Hb Hab Hba.
  pose proof (log2_gap a b 51 Ha Hb ltac:(lia) Hab) as Hd1.
  pose proof (log2_gap b a 51 Hb Ha ltac:(lia) Hba) as Hd2.
  assert (Hk : -52 <= binade a b <= 51).
  { rewrite binade_unfold. cbv zeta.
    destruct (_ <? _); lia. }
  pose proof (binade_spec a b 52 Ha Hb ltac:(lia) ltac:(lia)) as [Hup _].
  assert (Hk' : binade a b <= 50).
  { destruct (Z.le_gt_cases (binade a b) 50) as [|Hgt]; auto. exfalso.
    assert (2 ^ 103 <= 2 ^ (binade a b + 52)).
    { apply Z.pow_le_mono_r; lia. }
    change (2 ^ 103) with (2 ^ 51 * 2 ^ 52) in H.
    pose proof (pow2_pos 52 ltac:(lia)). nia. }
  clear Hup.
  set (k := binade a b) in *.
  pose proof (binade_spec a b (52 - k) Ha Hb ltac:(lia) ltac:(fold k; lia))
    as [Hlo Hhi].
  fold k in Hlo, Hhi.
  replace (k + (52 - k)) with 52 in Hlo by lia.
  replace (k + (52 - k) + 1) with 53 in Hhi by lia.
  set (N := a * 2 ^ (52 - k)) in *.
  assert (HN : 0 <= N).
  { unfold N. pose proof (pow2_pos (52 - k) ltac:(lia)). nia. }
  pose proof (div_half_even_spec N b HN Hb) as Hm.
  pose proof (div_half_even_ge (2 ^ 52) N b HN Hb ltac:(lia)) as Hm1.
  pose proof (div_half_even_le (2 ^ 53) N b HN Hb ltac:(lia)) as Hm2.
  unfold nearest_quotient. fold k.
  rewrite (Z.max_l (k - 52) (-1074)) by lia.
  unfold scaled.
  rewrite (Z.max_r 0 (- (k - 52))) by lia.
  rewrite (Z.max_l 0 (k - 52)) by lia.
  replace (- (k - 52)) with (52 - k) by lia.
  change (2 ^ 0) with 1. rewrite Z.mul_1_r. fold N.
  set (m := div_half_even N b) in *.
  assert (Hvalid : forall m' e', 2 ^ 52 <= m' < 2 ^ 53 -> -105 <= e' < 0 ->
    valid_binary (S754_finite s (Z.to_pos m') e') = true).
  { intros m' e' Hm' He'. unfold SpecFloat.valid_binary, bounded, canonical_mantissa.
    rewrite (digits2_pos_unique (Z.to_pos m') 53).
    - unfold fexp, emin, prec, emax. apply andb_true_intro. split.
      + apply Z.eqb_eq. lia.
      + apply Z.leb_le. lia.
    - rewrite Z2Pos.id by (change (2 ^ 52) with 4503599627370496 in Hm'; lia).
      exact Hm'. }
  destruct (Z.eqb_spec m (2 ^ 53)) as [E|E].
  - change (2 ^ 52 =? 0) with false. cbv iota.
    destruct (Z.ltb_spec 971 (k - 52 + 1)); [lia|].
    exists (Z.to_pos (2 ^ 52)), (k - 52 + 1).
    split; [reflexivity|]. split; [lia|].
    split; [change (Zpos (Z.to_pos (2 ^ 52))) with (2 ^ 52);
            change (2 ^ 53) with (2 * 2 ^ 52); lia|].
    split; [|apply Hvalid; change (2 ^ 53) with (2 * 2 ^ 52); lia].
    change (Zpos (Z.to_pos (2 ^ 52))) with (2 ^ 52).
    replace (- (k - 52 + 1)) with (51 - k) by lia.
    assert (HN' : N = 2 * (a * 2 ^ (51 - k))).
    { unfold N. replace (52 - k) with (Z.succ (51 - k)) by lia.
      rewrite Z.pow_succ_r by lia. ring. }
    rewrite E in Hm. change (2 ^ 53) with (2 * 2 ^ 52) in Hm. lia.
  - destruct (Z.eqb_spec m 0) as [E0|E0];
      [change (2 ^ 52) with 4503599627370496 in Hm1; lia|].
    destruct (Z.ltb_spec 971 (k - 52)); [lia|].
    exists (Z.to_pos m), (k - 52).
    assert (Hpos : Zpos (Z.to_pos m) = m).
    { apply Z2Pos.id. change (2 ^ 52) with 4503599627370496 in Hm1. lia. }
    split; [reflexivity|]. split; [lia|]. rewrite Hpos.
    split; [lia|].
    split; [|apply Hvalid; lia].
    replace (- (k - 52)) with (52 - k) by lia. exact Hm.
Qed.

End NumFacts.

Import NumFacts.

(** ** [mix] *)

Lemma int_truediv_zero b :
  0 < b -> int_truediv 0 b = Ok (SF2Prim (S754_zero false)).
Proof.
  intros Hb. unfold int_truediv.
  destruct (Z.eqb_spec b 0); [lia|].
  destruct (Z.ltb_spec b 0); [lia|]. reflexivity.
Qed.

Lemma int_truediv_spec a b :
  0 < a -> 0 < b -> a < b * 2 ^ 51 -> b < a * 2 ^ 51 ->
  exists m e,
    int_truediv a b = Ok (SF2Prim (S754_finite false m e)) /\
    Prim2SF (SF2Prim (S754_finite false m e)) = S754_finite false m e /\
    e < 0 /\
    2 ^ 52 <= Zpos m < 2 ^ 53 /\
    2 * Z.abs (Zpos m * b - a * 2 ^ (- e)) <= b.
Proof.
  intros Ha Hb Hab Hba.
  destruct (nearest_quotient_spec false a b Ha Hb Hab Hba)
    as (m & e & Hq & He & Hm & Hnear & Hvalid).
  exists m, e. split; [|split; [now apply Prim2SF_SF2Prim | auto]].
  unfold int_truediv.
  destruct (Z.eqb_spec b 0); [lia|].
  destruct (Z.ltb_spec a 0); [lia|].
  destruct (Z.ltb_spec b 0); [lia|].
  destruct (Z.eqb_spec a 0); [lia|].
  cbn [xorb]. rewrite !Z.abs_eq by lia. now rewrite Hq.
Qed.

(** Rounding the float quotient of a small non-negative mean gives an
    integer nearest to the exact quotient. *)
Lemma rounded_quotient a b :
  0 <= a -> 0 < b -> a <= 255 * b -> b < 2 ^ 44 ->
  exists q z,
    int_truediv a b = Ok q /\ round_to_int q = Ok z /\
    2 * Z.abs (z * b - a) <= b.
Proof.
  intros Ha Hb Hab Hb44.
  destruct (Z.eq_dec a 0) as [->|Hne].
  - exists (SF2Prim (S754_zero false)), 0.
    split; [now apply int_truediv_zero|]. split; [reflexivity|]. lia.
  - change (2 ^ 44) with 17592186044416 in Hb44.
    destruct (int_truediv_spec a b) as (m & e & Hq & Hsf & He & Hm & Hnear);
      try lia.
    exists (SF2Prim (S754_finite false m e)),
           (div_half_even (Zpos m) (2 ^ (- e))).
    split; [exact Hq|].
    split.
    { unfold round_to_int, float_to_int. rewrite Hsf.
      destruct (Z.ltb_spec e 0); [reflexivity | lia]. }
    set (P := 2 ^ (- e)) in *.
    assert (HP : 0 < P) by (apply pow2_pos; lia).
    pose proof (div_half_even_spec (Zpos m) P ltac:(lia) HP) as Hv.
    set (v := div_half_even (Zpos m) P) in *.
    change (2 ^ 52) with 4503599627370496 in Hm.
    assert (Hnear' : - b <= 2 * (Zpos m * b - a * P) <= b) by lia.
    assert (Hv' : - P <= 2 * (v * P - Zpos m) <= P) by lia.
    clear Hnear Hv.
    (* the exponent is small enough for [b] to stay below [P] *)
    assert (HbP : b < P).
    { assert (4503599627370496 * b <= Zpos m * b) by nia.
      assert (2 * (Zpos m * b) <= 2 * (255 * b * P) + b) by nia.
      assert (b * 17592186044416 <= b * P) by nia.
      nia. }
    assert (Hsplit : (v * b - a) * P = (v * P - Zpos m) * b + (Zpos m * b - a * P))
      by ring.
    assert (- b <= 2 * (v * b - a) <= b) by (split; nia).
    lia.
Qed.

Lemma sum_from_acc l : forall acc, fold_left Z.add l acc = acc + Py.sum l.
Proof.
  unfold Py.sum. induction l as [|x l IH]; intros acc; simpl; [lia|].
  rewrite IH, (IH x). lia.
Qed.

Lemma sum_cons x l : Py.sum (x :: l) = x + Py.sum l.
Proof. unfold Py.sum at 1. simpl. apply sum_from_acc. Qed.

Lemma sum_bounds l : Forall channel l -> 0 <= Py.sum l <= 255 * Py.len l.
Proof.
  unfold Py.len. induction 1 as [|x l Hx _ IH].
  - unfold Py.sum. simpl. lia.
  - rewrite sum_cons. cbn [List.length]. unfold channel in Hx. lia.
Qed.

Lemma len_pos {A : Type} (l : list A) : l <> [] -> 0 < Py.len l.
Proof. destruct l; [congruence|]. unfold Py.len. simpl. lia. Qed.

Lemma mix_channel l :
  channel_sequence l ->
  exists x z,
    truediv (I (Py.sum l)) (I (Py.len l)) = Ok x /\ round_num x = Ok z /\
    nearest_to_mean z l.
Proof.
  intros (Hne & Hch & Hlen).
  pose proof (sum_bounds l Hch) as [Hs1 Hs2].
  pose proof (len_pos l Hne) as Hn.
  destruct (rounded_quotient (Py.sum l) (Py.len l) Hs1 Hn Hs2 Hlen)
    as (q & z & Hq & Hz & Hnear).
  exists (F q), z. cbn [truediv]. rewrite Hq. auto.
Qed.

(** C2. For every non-empty batch of channels (each sequence shorter than
    [2^44]) [mix] returns, channel by channel and each from its own
    sequence alone, an integer nearest to the arithmetic mean of that
    sequence; the batch parsed from [ff0000], [00ff00], [0000ff] gives
    (85, 85, 85, 255), encoded as [#555555ff]. *)
Theorem mix_rounded_mean :
  (forall rs gs bs als : list Z,
      channel_sequence rs -> channel_sequence gs ->
      channel_sequence bs -> channel_sequence als ->
      exists r g b a,
        mix rs gs bs als = Ok [r; g; b; a] /\
        nearest_to_mean r rs /\ nearest_to_mean g gs /\
        nearest_to_mean b bs /\ nearest_to_mean a als) /\
  read_colors example_file [] =
    Ok (mk_batch [255; 0; 0] [0; 255; 0] [0; 0; 255] [255; 255; 255]) /\
  mix [255; 0; 0] [0; 255; 0] [0; 0; 255] [255; 255; 255] =
    Ok [85; 85; 85; 255] /\
  (c <- Color.init 85 85 85 255 ;; Color.color_to_hex c) =
    Ok (lit "#555555ff").
Proof.
  split; [|repeat split; vm_compute; reflexivity].
  intros rs gs bs als Hr Hg Hb Ha.
  destruct (mix_channel rs Hr) as (xr & r & Hxr & Hzr & Hnr).
  destruct (mix_channel gs Hg) as (xg & g & Hxg & Hzg & Hng).
  destruct (mix_channel bs Hb) as (xb & b & Hxb & Hzb & Hnb).
  destruct (mix_channel als Ha) as (xa & a & Hxa & Hza & Hna).
  exists r, g, b, a. unfold mix.
  rewrite Hxr, Hxg, Hxb, Hxa. cbn [bind].
  rewrite Hzr, Hzg, Hzb, Hza. auto.
Qed.

Lemma channel_sequence_example l :
  l = [255; 0; 0] \/ l = [0; 255; 0] \/ l = [0; 0; 255] \/
  l = [255; 255; 255] -> channel_sequence l.
Proof.
  intros H. unfold channel_sequence, channel.
  destruct H as [-> | [-> | [-> | ->]]];
    (split; [discriminate|]; split;
     [repeat constructor; lia | reflexivity]).
Defined.

Lemma mix_rounded_mean_witness :
  exists r g b a,
    mix [255; 0; 0] [0; 255; 0] [0; 0; 255] [255; 255; 255] = Ok [r; g; b; a] /\
    nearest_to_mean r [255; 0; 0] /\ nearest_to_mean g [0; 255; 0] /\
    nearest_to_mean b [0; 0; 255] /\ nearest_to_mean a [255; 255; 255].
Proof.
  apply (proj1 mix_rounded_mean);
    apply channel_sequence_example; auto.
Defined.

(** ** [average_saturation] *)

Lemma calc_saturation_extremes r g b :
  Color.calc_saturation r g b =
  (r' <- normalized r ;; g' <- normalized g ;; b' <- normalized b ;;
   saturation_of_extremes (max3 r' g' b') (min3 r' g' b')).
Proof. reflexivity. Qed.

Lemma max3_cases x y z : max3 x y z = x \/ max3 x y z = y \/ max3 x y z = z.
Proof.
  unfold max3. cbv zeta.
  destruct (gt y x); [destruct (gt z y) | destruct (gt z x)]; auto.
Qed.

Lemma min3_cases x y z : min3 x y z = x \/ min3 x y z = y \/ min3 x y z = z.
Proof.
  unfold min3. cbv zeta.
  destruct (lt y x); [destruct (lt z y) | destruct (lt z x)]; auto.
Qed.

Lemma range_in z n : 0 <= z < Z.of_nat n -> In z (range n).
Proof.
  intros Hz. unfold range. rewrite <- (Z2Nat.id z) by lia.
  apply in_map, in_seq. lia.
Qed.

Lemma normalized_level v :
  channel v -> exists x, normalized v = Ok x /\ In x levels.
Proof.
  intros Hv. destruct (gray_level v Hv) as (x & Hx & _).
  exists (F x). split; [exact Hx|].
  unfold levels.
  replace (F x) with (level v) by (unfold level; now rewrite Hx).
  apply in_map, range_in. unfold channel in Hv. lia.
Qed.

Lemma extremes_of_levels :
  forallb (fun cmax => forallb (extremes_check cmax) levels) levels = true.
Proof. vm_compute. reflexivity. Qed.

(** On channels [calc_saturation] always returns, the int [0] or a float:
    its divisor [1 - |max + min - 1|] is never zero there. *)
Lemma calc_saturation_ok r g b :
  channel r -> channel g -> channel b ->
  exists s, Color.calc_saturation r g b = Ok s /\ saturation_shape s = true.
Proof.
  intros Hr Hg Hb.
  destruct (normalized_level r Hr) as (x & Hx & Ix).
  destruct (normalized_level g Hg) as (y & Hy & Iy).
  destruct (normalized_level b Hb) as (z & Hz & Iz).
  rewrite calc_saturation_extremes, Hx, Hy, Hz. cbn [bind].
  assert (Imax : In (max3 x y z) levels)
    by (destruct (max3_cases x y z) as [-> | [-> | ->]]; assumption).
  assert (Imin : In (min3 x y z) levels)
    by (destruct (min3_cases x y z) as [-> | [-> | ->]]; assumption).
  pose proof extremes_of_levels as H. rewrite forallb_forall in H.
  specialize (H _ Imax). rewrite forallb_forall in H. specialize (H _ Imin).
  unfold extremes_check in H.
  destruct (saturation_of_extremes (max3 x y z) (min3 x y z)) as [s|];
    [eauto | discriminate].
Qed.

Lemma index_after_prefix {A : Type} (p l : list A) (x : A) (n : nat) :
  List.length p = n -> Py.index (p ++ x :: l) n = Ok x.
Proof.
  intros <-. unfold Py.index.
  rewrite nth_error_app2 by lia. now rewrite Nat.sub_diag.
Qed.

(** The indexed loop visits the samples in order. *)
Lemma saturations_loop_spec :
  forall (rs gs bs pr pg pb : list Z) (acc : list num),
    List.length pg = List.length pr -> List.length pb = List.length pr ->
    List.length gs = List.length rs -> List.length bs = List.length rs ->
    saturations_loop (pr ++ rs) (pg ++ gs) (pb ++ bs)
      (seq (List.length pr) (List.length rs)) acc =
    (rest <- saturation_of_each (zip3 rs gs bs) ;; Ok (acc ++ rest)).
Proof.
  induction rs as [|r rs IH]; intros gs bs pr pg pb acc Hpg Hpb Hg Hb.
  - simpl. now rewrite app_nil_r.
  - destruct gs as [|g gs]; [discriminate|].
    destruct bs as [|b bs]; [discriminate|].
    cbn [List.length seq saturations_loop zip3 saturation_of_each].
    rewrite (index_after_prefix pr rs r _ eq_refl).
    rewrite (index_after_prefix pg gs g _ Hpg).
    rewrite (index_after_prefix pb bs b _ Hpb). cbn [bind].
    destruct (Color.calc_saturation r g b) as [s|e]; [|reflexivity].
    cbn [bind].
    replace (pr ++ r :: rs) with ((pr ++ [r]) ++ rs)
      by (now rewrite <- app_assoc).
    replace (pg ++ g :: gs) with ((pg ++ [g]) ++ gs)
      by (now rewrite <- app_assoc).
    replace (pb ++ b :: bs) with ((pb ++ [b]) ++ bs)
      by (now rewrite <- app_assoc).
    replace (S (List.length pr)) with (List.length (pr ++ [r]))
      by (rewrite length_app; simpl; lia).
    rewrite IH.
    + destruct (saturation_of_each (zip3 rs gs bs)) as [rest|e];
        [|reflexivity].
      cbn [bind]. now rewrite <- app_assoc.
    + rewrite !length_app. simpl. lia.
    + rewrite !length_app. simpl. lia.
    + simpl in Hg. lia.
    + simpl in Hb. lia.
Qed.

Lemma average_saturation_refines py rs gs bs :
  List.length gs = List.length rs -> List.length bs = List.length rs ->
  average_saturation py rs gs bs =
  (saturations <- saturation_of_each (zip3 rs gs bs) ;;
   arithmetic_mean py saturations).
Proof.
  intros Hg Hb. unfold average_saturation.
  pose proof (saturations_loop_spec rs gs bs [] [] [] [] eq_refl eq_refl
                Hg Hb) as Hloop.
  cbn [app List.length] in Hloop. rewrite Hloop.
  destruct (saturation_of_each (zip3 rs gs bs)); reflexivity.
Qed.

Lemma saturation_of_each_ok :
  forall rs gs bs,
    List.length gs = List.length rs -> List.length bs = List.length rs ->
    Forall channel rs -> Forall channel gs -> Forall channel bs ->
    exists saturations,
      saturation_of_each (zip3 rs gs bs) = Ok saturations /\
      List.length saturations = List.length rs /\
      forallb saturation_shape saturations = true.
Proof.
  induction rs as [|r rs IH]; intros gs bs Hg Hb Fr Fg Fb.
  - exists []. auto.
  - destruct gs as [|g gs]; [discriminate|].
    destruct bs as [|b bs]; [discriminate|].
    inversion Fr; inversion Fg; inversion Fb; subst.
    destruct (calc_saturation_ok r g b) as (s & Hs & Hshape); auto.
    destruct (IH gs bs) as (rest & Hrest & Hlen & Hshapes); auto.
    exists (s :: rest). cbn [zip3 saturation_of_each].
    rewrite Hs, Hrest. cbn [bind List.length forallb].
    rewrite Hshape, Hshapes, Hlen. auto.
Qed.

Lemma sum_from_shape l : forall acc,
  saturation_shape acc = true -> forallb saturation_shape l = true ->
  exists total, sum_from acc l = Ok total /\ saturation_shape total = true.
Proof.
  induction l as [|x l IH]; intros acc Hacc Hl.
  - exists acc. auto.
  - cbn [forallb] in Hl. apply andb_prop in Hl. destruct Hl as [Hx Hl].
    cbn [sum_from].
    assert (Hadd : exists acc', add acc x = Ok acc' /\
                                saturation_shape acc' = true).
    { destruct acc as [a|a], x as [y|y]; cbn in Hacc, Hx.
      - apply Z.eqb_eq in Hacc, Hx. subst. exists (I 0). auto.
      - apply Z.eqb_eq in Hacc. subst. eexists. split; reflexivity.
      - apply Z.eqb_eq in Hx. subst. eexists. split; reflexivity.
      - eexists. split; reflexivity. }
    destruct Hadd as (acc' & Hadd & Hacc'). rewrite Hadd. cbn [bind].
    now apply IH.
Qed.

Lemma sum_compensated_shape l : forall f c,
  forallb saturation_shape l = true ->
  exists total, sum_compensated f c l = Ok (F total).
Proof.
  induction l as [|x l IH]; intros f c Hl.
  - cbn [sum_compensated]. eauto.
  - cbn [forallb] in Hl. apply andb_prop in Hl. destruct Hl as [Hx Hl].
    destruct x as [z|x]; cbn [sum_compensated].
    + cbn in Hx. apply Z.eqb_eq in Hx. subst z.
      change (int_to_float 0) with (Ok 0%float). cbn [bind]. now apply IH.
    + now apply IH.
Qed.

Lemma sum_leading_ints_shape l :
  forallb saturation_shape l = true ->
  exists total,
    sum_leading_ints 0 l = Ok total /\ saturation_shape total = true.
Proof.
  induction l as [|x l IH]; intros Hl.
  - exists (I 0). auto.
  - cbn [forallb] in Hl. apply andb_prop in Hl. destruct Hl as [Hx Hl].
    destruct x as [z|x]; cbn [sum_leading_ints].
    + cbn in Hx. apply Z.eqb_eq in Hx. subst z. now apply IH.
    + change (int_to_float 0) with (Ok 0%float). cbn [bind].
      destruct (sum_compensated_shape l (0 + x) 0 Hl) as (total & Ht).
      exists (F total). auto.
Qed.

(** Under either interpreter the sum of saturations is the int [0] or a
    float. *)
Lemma sum_shape py l :
  forallb saturation_shape l = true ->
  exists total, Num.sum py l = Ok total /\ saturation_shape total = true.
Proof.
  intros Hl. destruct py; cbn [Num.sum].
  - now apply sum_from_shape.
  - now apply sum_leading_ints_shape.
Qed.

Lemma int_to_float_pos n :
  0 < n < 2 ^ 51 ->
  exists y, int_to_float n = Ok y /\ (y =? 0)%float = false.
Proof.
  intros [Hn1 Hn2].
  destruct (nearest_quotient_spec false n 1)
    as (m & e & Hq & He & Hm & Hnear & Hvalid); try lia.
  exists (SF2Prim (S754_finite false m e)). split.
  - unfold int_to_float.
    destruct (Z.eqb_spec n 0); [lia|].
    destruct (Z.ltb_spec n 0); [lia|].
    rewrite Z.abs_eq by lia. now rewrite Hq.
  - rewrite FloatAxioms.eqb_spec, (Prim2SF_SF2Prim _ Hvalid). reflexivity.
Qed.

Lemma arithmetic_mean_ok py l :
  l <> [] -> Py.len l < 2 ^ 44 -> forallb saturation_shape l = true ->
  exists x, arithmetic_mean py l = Ok (F x).
Proof.
  intros Hne Hlen Hl. pose proof (len_pos l Hne) as Hn.
  destruct (sum_shape py l Hl) as (total & Ht & Hshape).
  unfold arithmetic_mean. rewrite Ht. cbn [bind].
  destruct total as [z|t]; cbn in Hshape.
  - apply Z.eqb_eq in Hshape. subst. cbn [truediv].
    rewrite (int_truediv_zero _ Hn). cbn [bind]. eauto.
  - destruct (int_to_float_pos (Py.len l)) as (y & Hy & Hy0).
    { change (2 ^ 44) with 17592186044416 in Hlen.
      change (2 ^ 51) with 2251799813685248. lia. }
    cbn [truediv to_float bind]. rewrite Hy. cbn [bind]. rewrite Hy0. eauto.
Qed.

(** On batches of channels, under either interpreter,
    [average_saturation] raises [ZeroDivisionError] exactly when the batch
    is empty and returns a float otherwise: the divisor of
    [calc_saturation] does not vanish on channels. *)
Lemma average_saturation_on_channels py (rs gs bs : list Z) :
  List.length gs = List.length rs -> List.length bs = List.length rs ->
  Forall channel rs -> Forall channel gs -> Forall channel bs ->
  Py.len rs < 2 ^ 44 ->
  (average_saturation py rs gs bs = Raise ZeroDivisionError <-> rs = []) /\
  (rs <> [] -> exists mean, average_saturation py rs gs bs = Ok (F mean)).
Proof.
  intros Hg Hb Fr Fg Fb Hlen.
  pose proof (average_saturation_refines py rs gs bs Hg Hb) as Href.
  assert (Hreturns : rs <> [] ->
    exists mean, average_saturation py rs gs bs = Ok (F mean)).
  { intros Hne.
    destruct (saturation_of_each_ok rs gs bs Hg Hb Fr Fg Fb)
      as (sats & Hsats & Hlens & Hshapes).
    destruct (arithmetic_mean_ok py sats) as (x & Hx); auto.
    - intros ->. destruct rs; [congruence | discriminate].
    - unfold Py.len in *. now rewrite Hlens.
    - exists x. rewrite Href, Hsats. exact Hx. }
  split; [|exact Hreturns]. split.
  - intros Hraise. destruct rs as [|r rs']; [reflexivity|].
    destruct Hreturns as (x & Hok); [discriminate|].
    rewrite Hok in Hraise. discriminate.
  - intros ->. destruct gs; [|discriminate]. destruct bs; [|discriminate].
    destruct py; reflexivity.
Qed.

(** From three chromatic samples on the two interpreters need not agree:
    here the saturations are [1 + 16e], [1 + 3e] and [1 - e/2] with
    [e = 2^-52], which add up to [3 + 20e] left to right and to [3 + 18e]
    with compensation. *)
Lemma average_saturation_by_interpreter :
  exists before since,
    average_saturation Before312 [4; 20; 106] [1; 2; 3] [0; 0; 0] =
      Ok before /\
    average_saturation Since312 [4; 20; 106] [1; 2; 3] [0; 0; 0] =
      Ok since /\
    lt since before = true.
Proof. do 2 eexists. repeat split; vm_compute; reflexivity. Qed.

(** C5. [average_saturation] does not return a mean for every batch with
    at least one sample, and its division by zero is not reached on the
    empty batch only: the token [510,0,0,255] passes the parser, the batch
    read from it has one sample, and the saturation of that sample divides
    by zero, [1 - |2.0 + 0.0 - 1|] being [0.0]. The run then raises
    [ZeroDivisionError] under either interpreter and in every mode. *)
Theorem average_saturation_raises_on_sample :
  format_color (lit "510,0,0,255") = Ok (Some [510; 0; 0; 255]) /\
  read_colors (lit "510,0,0,255") [] = Ok (mk_batch [510] [0] [0] [255]) /\
  Color.calc_saturation 510 0 0 = Raise ZeroDivisionError /\
  forall py : interpreter,
    average_saturation py [510] [0] [0] = Raise ZeroDivisionError /\
    forall m : mode,
      new_color py m (lit "510,0,0,255") [] = Raise ZeroDivisionError.
Proof.
  assert (Hsat : Color.calc_saturation 510 0 0 = Raise ZeroDivisionError)
    by (vm_compute; reflexivity).
  assert (Hread : read_colors (lit "510,0,0,255") [] =
                  Ok (mk_batch [510] [0] [0] [255]))
    by (vm_compute; reflexivity).
  assert (Havg : forall py,
             average_saturation py [510] [0] [0] = Raise ZeroDivisionError).
  { intros py. unfold average_saturation.
    cbn [List.length seq saturations_loop Py.index nth_error bind].
    rewrite Hsat. reflexivity. }
  split; [vm_compute; reflexivity|]. split; [exact Hread|].
  split; [exact Hsat|]. intros py. split; [apply Havg|]. intros m.
  unfold new_color. rewrite Hread.
  cbn [bind reds greens blues alphas]. rewrite Havg. reflexivity.
Qed.

(** ** [mix_saturate] *)

Lemma last_item_snoc {A : Type} (l : list A) (x : A) :
  Py.last_item (l ++ [x]) = Ok x.
Proof. unfold Py.last_item. now rewrite rev_unit. Qed.

(** C4. When the last sample of the batch is achromatic (R = G = B),
    [mix_saturate] returns it unchanged whatever the average saturation,
    and returns normally: no division by zero (nor any other exception)
    occurs on this path. *)
Theorem mix_saturate_achromatic (rs gs bs als : list Z) (v alpha : Z)
    (avg_saturation : num) :
  channel v ->
  mix_saturate (rs ++ [v]) (gs ++ [v]) (bs ++ [v]) (als ++ [alpha])
    avg_saturation = Ok [v; v; v; alpha].
Proof.
  intros Hv. destruct (gray_level v Hv) as (x & Hx & Hxx & Hs & _).
  unfold mix_saturate. rewrite !last_item_snoc. cbn [bind].
  cbn [Py.max_list Py.min_list fold_left].
  rewrite !Z.ltb_irrefl. cbn [bind Py.index_of].
  rewrite Z.eqb_refl. cbn [bind].
  fold (normalized v). rewrite Hx, Hs. cbn [bind].
  unfold ne. rewrite Hxx. cbn [negb]. rewrite !andb_false_r.
  reflexivity.
Qed.

Lemma mix_saturate_achromatic_witness :
  channel 128 /\
  mix_saturate ([255; 0] ++ [128]) ([0; 255] ++ [128]) ([0; 0] ++ [128])
    ([255; 255] ++ [64]) (F 0.75) = Ok [128; 128; 128; 64].
Proof.
  assert (H : channel 128) by (unfold channel; lia).
  exact (conj H
    (mix_saturate_achromatic [255; 0] [0; 255] [0; 0] [255; 255] 128 64
       (F 0.75) H)).
Defined.

Lemma index_of_three v r g b i :
  Py.index_of v [r; g; b] = Ok i -> i = 0%nat \/ i = 1%nat \/ i = 2%nat.
Proof.
  cbn [Py.index_of]. destruct (r =? v); [intros [= <-]; auto|].
  destruct (g =? v); [intros [= <-]; auto|].
  destruct (b =? v); [intros [= <-]; auto|].
  discriminate.
Qed.

Lemma assign_three (r g b : Z) i v l :
  Py.assign [r; g; b] i v = Ok l ->
  forall j, j <> i -> nth_error l j = nth_error [r; g; b] j.
Proof.
  intros H j Hj.
  destruct i as [|[|[|i]]]; cbn in H; try discriminate;
    injection H as <-;
    destruct j as [|[|[|j]]]; try reflexivity; congruence.
Qed.

Lemma assign_length {A : Type} (l l' : list A) i v :
  Py.assign l i v = Ok l' -> List.length l' = List.length l.
Proof.
  revert l' i. induction l as [|a l IH]; intros l' i H; [discriminate|].
  destruct i as [|i]; cbn in H.
  - now injection H as <-.
  - bind_inv H. injection H as <-. simpl. f_equal. eauto.
Qed.

(** C8. Whenever [mix_saturate] returns a colour for a non-empty batch, it
    is the last sample with at most one of R, G, B replaced, the one at the
    index of the maximum or of the minimum; the other two and alpha are the
    last sample's own. *)
Theorem mix_saturate_frame (rs gs bs als : list Z) (r g b alpha : Z)
    (avg_saturation : num) (res : list Z) :
  mix_saturate (rs ++ [r]) (gs ++ [g]) (bs ++ [b]) (als ++ [alpha])
    avg_saturation = Ok res ->
  exists cmax cmin index_max index_min i,
    Py.max_list [r; g; b] = Ok cmax /\
    Py.index_of cmax [r; g; b] = Ok index_max /\
    Py.min_list [r; g; b] = Ok cmin /\
    Py.index_of cmin [r; g; b] = Ok index_min /\
    (i = index_max \/ i = index_min) /\
    List.length res = 4%nat /\
    forall j, j <> i -> nth_error res j = nth_error [r; g; b; alpha] j.
Proof.
  intros H. unfold mix_saturate in H. rewrite !last_item_snoc in H.
  cbn [bind] in H.
  destruct (Py.max_list [r; g; b]) as [cmax|] eqn:Emax; [|discriminate].
  cbn [bind] in H.
  destruct (Py.index_of cmax [r; g; b]) as [imax|] eqn:Eimax; [|discriminate].
  cbn [bind] in H.
  destruct (Py.min_list [r; g; b]) as [cmin|] eqn:Emin; [|discriminate].
  cbn [bind] in H.
  destruct (Py.index_of cmin [r; g; b]) as [imin|] eqn:Eimin; [|discriminate].
  cbn [bind] in H.
  do 4 bind_inv H. injection H as <-.
  exists cmax, cmin, imax, imin.
  assert (Hframe : forall i l,
    (forall j, j <> i -> nth_error l j = nth_error [r; g; b] j) ->
    List.length l = 3%nat ->
    List.length (l ++ [alpha]) = 4%nat /\
    forall j, j <> i -> nth_error (l ++ [alpha]) j = nth_error [r; g; b; alpha] j).
  { intros i l Hl Hlen. split; [rewrite length_app, Hlen; reflexivity|].
    intros j Hj. destruct (Nat.lt_ge_cases j 3) as [Hlt|Hge].
    - rewrite nth_error_app1 by lia. rewrite (Hl j Hj).
      destruct j as [|[|[|j]]]; try reflexivity; lia.
    - rewrite nth_error_app2 by lia. rewrite Hlen.
      destruct l as [|? [|? [|? [|]]]]; try discriminate.
      destruct j as [|[|[|[|j]]]]; try lia; try reflexivity. }
  assert (Hpick : forall i l,
    (i = imax \/ i = imin) ->
    (forall j, j <> i -> nth_error l j = nth_error [r; g; b] j) ->
    List.length l = 3%nat ->
    exists i,
      Ok cmax = Ok cmax /\ Py.index_of cmax [r; g; b] = Ok imax /\
      Ok cmin = Ok cmin /\ Py.index_of cmin [r; g; b] = Ok imin /\
      (i = imax \/ i = imin) /\
      List.length (l ++ [alpha]) = 4%nat /\
      forall j, j <> i ->
        nth_error (l ++ [alpha]) j = nth_error [r; g; b; alpha] j).
  { intros i l Hi Hl Hlen. exists i.
    destruct (Hframe i l Hl Hlen) as [H1 H2]. auto 10. }
  destruct (gt avg_saturation v1 && ne v v0).
  - do 2 bind_inv Hv2. apply (Hpick imax); auto.
    + eapply assign_three; eauto.
    + now rewrite (assign_length _ _ _ _ Hv2).
  - destruct (lt avg_saturation v1 && ne v v0).
    + do 2 bind_inv Hv2. apply (Hpick imin); auto.
      * eapply assign_three; eauto.
      * now rewrite (assign_length _ _ _ _ Hv2).
    + injection Hv2 as <-. apply (Hpick imax); auto.
Qed.

Lemma mix_saturate_frame_witness :
  exists cmax cmin index_max index_min i,
    Py.max_list [128; 64; 32] = Ok cmax /\
    Py.index_of cmax [128; 64; 32] = Ok index_max /\
    Py.min_list [128; 64; 32] = Ok cmin /\
    Py.index_of cmin [128; 64; 32] = Ok index_min /\
    (i = index_max \/ i = index_min) /\
    List.length [240; 64; 32; 255] = 4%nat /\
    forall j, j <> i ->
      nth_error [240; 64; 32; 255] j = nth_error [128; 64; 32; 255] j.
Proof.
  apply (mix_saturate_frame [255; 0] [0; 255] [0; 0] [255; 255]
           128 64 32 255 (F 0.875)).
  vm_compute. reflexivity.
Defined.

(** ** The hex round trip *)

Lemma str_eqb_eq s : forall t, str_eqb s t = true -> s = t.
Proof.
  induction s as [|c s IH]; intros [|d t]; simpl; intros H;
    try discriminate; auto.
  apply andb_prop in H. destruct H as [H1 H2].
  apply Ascii.eqb_eq in H1. subst. f_equal. auto.
Qed.

Lemma lower_hex_letter c : is_lower_hex c = true -> In c hex_letters.
Proof.
  destruct c as [[] [] [] [] [] [] [] []]; vm_compute; intros H;
    try discriminate H; intuition.
Qed.

Lemma bytes_checked :
  forallb (fun c1 => forallb (byte_check c1) hex_letters) hex_letters = true.
Proof. vm_compute. reflexivity. Qed.

Lemma byte_round_trip c1 c2 :
  is_lower_hex c1 = true -> is_lower_hex c2 = true ->
  exists v x,
    Py.int_base0 (lit "0x" ++ [c1; c2]) = Ok v /\ channel v /\
    normalized v = Ok x /\ Color.hex_byte x = Ok [c1; c2].
Proof.
  intros H1 H2. apply lower_hex_letter in H1, H2.
  pose proof bytes_checked as H. rewrite forallb_forall in H.
  specialize (H _ H1). rewrite forallb_forall in H. specialize (H _ H2).
  unfold byte_check in H.
  destruct (Py.int_base0 (lit "0x" ++ [c1; c2])) as [v|] eqn:Ev;
    [|discriminate].
  apply andb_prop in H. destruct H as [Hv H].
  apply andb_prop in Hv. destruct Hv as [Hv1 Hv2].
  apply Z.leb_le in Hv1, Hv2.
  destruct (normalized v) as [x|] eqn:Ex; [|discriminate].
  destruct (Color.hex_byte x) as [s|] eqn:E; [|discriminate].
  apply str_eqb_eq in H. subst.
  exists v, x. unfold channel. repeat split; auto.
Qed.

Lemma hex_pattern_matches tok :
  List.length tok = 8%nat -> forallb is_lower_hex tok = true ->
  search_anchored hex_pattern tok = true.
Proof.
  intros Hlen Hall. unfold search_anchored, hex_pattern.
  rewrite !fullmatch_alt, !fullmatch_rep_class, Hall, Hlen. reflexivity.
Qed.

Lemma byte_in_range c1 c2 :
  is_lower_hex c1 = true -> is_lower_hex c2 = true ->
  exists v, Py.int_base0 (lit "0x" ++ [c1; c2]) = Ok v /\ channel v.
Proof.
  intros H1 H2.
  destruct (byte_round_trip c1 c2 H1 H2) as (v & _ & Hv & Hc & _). eauto.
Qed.

(** The hex half of the parser keeps its promise: a token of three, six or
    eight lowercase hex digits parses to four channels in [0, 255]. *)
Lemma format_color_hex_in_range tok :
  fullmatch hex_pattern tok = true ->
  exists r g b a,
    format_color tok = Ok (Some [r; g; b; a]) /\
    channel r /\ channel g /\ channel b /\ channel a.
Proof.
  intros Hfull.
  assert (Hmatch : search_anchored hex_pattern tok = true)
    by (unfold search_anchored; now rewrite Hfull).
  unfold hex_pattern in Hfull.
  rewrite !fullmatch_alt, !fullmatch_rep_class in Hfull.
  assert (Hall : forallb is_lower_hex tok = true).
  { destruct (forallb is_lower_hex tok); auto. }
  rewrite Hall in Hfull. cbn [andb] in Hfull.
  assert (H255 : channel 255) by (unfold channel; lia).
  assert (Hlen : List.length tok = 3%nat \/ List.length tok = 6%nat \/
                 List.length tok = 8%nat).
  { repeat (apply orb_prop in Hfull; destruct Hfull as [Hfull|Hfull]);
      apply andb_prop in Hfull; destruct Hfull as [Hlo Hhi];
      apply Nat.leb_le in Hlo, Hhi; lia. }
  clear Hfull. unfold format_color. rewrite Hmatch.
  destruct Hlen as [Hlen | [Hlen | Hlen]];
    destruct tok as [|c1 [|c2 [|c3 [|c4 [|c5 [|c6 [|c7 [|c8 [|]]]]]]]]];
    try discriminate;
    cbn [forallb] in Hall;
    repeat (apply andb_prop in Hall; destruct Hall as [? Hall]).
  - destruct (byte_in_range c1 c1) as (r & Hr & Cr); auto.
    destruct (byte_in_range c2 c2) as (g & Hg & Cg); auto.
    destruct (byte_in_range c3 c3) as (b & Hb & Cb); auto.
    exists r, g, b, 255.
    cbn [List.length Nat.eqb Py.index nth_error bind].
    rewrite Hr, Hg, Hb. auto.
  - destruct (byte_in_range c1 c2) as (r & Hr & Cr); auto.
    destruct (byte_in_range c3 c4) as (g & Hg & Cg); auto.
    destruct (byte_in_range c5 c6) as (b & Hb & Cb); auto.
    exists r, g, b, 255.
    cbn [List.length Nat.eqb Py.slice Py.slice_from Nat.sub firstn skipn].
    rewrite Hr, Hg, Hb. auto.
  - destruct (byte_in_range c1 c2) as (r & Hr & Cr); auto.
    destruct (byte_in_range c3 c4) as (g & Hg & Cg); auto.
    destruct (byte_in_range c5 c6) as (b & Hb & Cb); auto.
    destruct (byte_in_range c7 c8) as (a & Ha & Ca); auto.
    exists r, g, b, a.
    cbn [List.length Nat.eqb Py.slice Py.slice_from Nat.sub firstn skipn].
    rewrite Hr, Hg, Hb, Ha. auto.
Qed.

(** C6. Hex round trip: an eight-digit lowercase hex token parses to four
    channels, and encoding these through [Color] and [color_to_hex] gives
    [#] followed by the same digits, which parse to the same four
    integers. *)
Theorem hex_round_trip (tok : str) :
  List.length tok = 8%nat -> forallb is_lower_hex tok = true ->
  exists r g b a c hex,
    format_color tok = Ok (Some [r; g; b; a]) /\
    Color.init r g b a = Ok c /\
    Color.color_to_hex c = Ok hex /\
    hex = "#"%char :: tok /\
    format_color (tl hex) = Ok (Some [r; g; b; a]).
Proof.
  intros Hlen Hall.
  pose proof (hex_pattern_matches tok Hlen Hall) as Hmatch.
  destruct tok as [|c1 [|c2 [|c3 [|c4 [|c5 [|c6 [|c7 [|c8 [|]]]]]]]]];
    try discriminate.
  cbn [forallb] in Hall.
  repeat (apply andb_prop in Hall; destruct Hall as [? Hall]).
  destruct (byte_round_trip c1 c2) as (r & xr & Hr & _ & Hxr & Hbr); auto.
  destruct (byte_round_trip c3 c4) as (g & xg & Hg & _ & Hxg & Hbg); auto.
  destruct (byte_round_trip c5 c6) as (b & xb & Hb & _ & Hxb & Hbb); auto.
  destruct (byte_round_trip c7 c8) as (a & xa & Ha & _ & Hxa & Hba); auto.
  assert (Hparse : format_color [c1; c2; c3; c4; c5; c6; c7; c8] =
                   Ok (Some [r; g; b; a])).
  { unfold format_color. rewrite Hmatch.
    cbn [List.length Nat.eqb Py.slice Py.slice_from Nat.sub firstn skipn].
    rewrite Hr, Hg, Hb, Ha. reflexivity. }
  exists r, g, b, a, (Color.make xr xg xb xa),
         ("#"%char :: [c1; c2; c3; c4; c5; c6; c7; c8]).
  split; [exact Hparse|]. split; [|split; [|split; [reflexivity | exact Hparse]]].
  - unfold Color.init. fold (normalized r) (normalized g) (normalized b)
      (normalized a). rewrite Hxr, Hxg, Hxb, Hxa. reflexivity.
  - unfold Color.color_to_hex. cbn [Color.r Color.g Color.b Color.a].
    rewrite Hbr, Hbg, Hbb, Hba. reflexivity.
Qed.

Lemma hex_round_trip_witness :
  exists r g b a c hex,
    format_color (lit "12ab00ff") = Ok (Some [r; g; b; a]) /\
    Color.init r g b a = Ok c /\
    Color.color_to_hex c = Ok hex /\
    hex = "#"%char :: lit "12ab00ff" /\
    format_color (tl hex) = Ok (Some [r; g; b; a]).
Proof.
  apply (hex_round_trip (lit "12ab00ff")); reflexivity.
Defined.

(** ** [mix_saturate] outside the unit interval *)

(** C3. The replacement that [mix_saturate] chooses need not lie in
    [0, 1]. For the batch read from [010000] and [ff0909] the average
    saturation exceeds the last sample's (both round to just above 1), the
    first root is above 1, and the second, which is then taken without a
    check, is about -3.97e13: the red channel becomes
    -10133099161583624, under either interpreter. *)
Theorem mix_saturate_root_outside_unit :
  read_colors failing_file [] =
    Ok (mk_batch [1; 255] [0; 9] [0; 9] [255; 255]) /\
  forall py : interpreter,
    (exists avg last cmin first second,
        average_saturation py [1; 255] [0; 9] [0; 9] = Ok avg /\
        Color.calc_saturation 255 9 9 = Ok last /\
        gt avg last = true /\
        normalized 9 = Ok cmin /\
        new_cmax_first avg cmin = Ok first /\
        in_unit first = false /\
        new_cmax_second avg cmin = Ok second /\
        new_cmax avg cmin = Ok second /\
        in_unit second = false /\
        lt second (I (-39737643770916)) = true) /\
    new_color py MixSaturate failing_file [] =
      Ok [-10133099161583624; 9; 9; 255].
Proof.
  split; [vm_compute; reflexivity|].
  intros py. destruct py; (split; [|vm_compute; reflexivity]);
  do 5 eexists;
  (split; [vm_compute; reflexivity|]);
  (split; [vm_compute; reflexivity|]);
  (split; [vm_compute; reflexivity|]);
  (split; [vm_compute; reflexivity|]);
  (split; [vm_compute; reflexivity|]);
  (split; [vm_compute; reflexivity|]);
  (split; [vm_compute; reflexivity|]);
  (split; [vm_compute; reflexivity|]);
  split; vm_compute; reflexivity.
Qed.

(** With valid colours [mix_saturate] can also divide by zero: the
    saturations of [070000] and [090000] average to exactly 1, below the
    last sample's, and [new_cmin] divides by [avg_saturation - 1]. *)
Lemma mix_saturate_zero_division (py : interpreter) :
  average_saturation py [7; 9] [0; 0] [0; 0] = Ok (F 1) /\
  mix_saturate [7; 9] [0; 0] [0; 0] [255; 255] (F 1) =
    Raise ZeroDivisionError.
Proof. destruct py; split; vm_compute; reflexivity. Qed.

(** * Further properties of the parser and the reader *)

(** ** More on regular expressions *)

Module RegexShapes.

Lemma fullmatch_cat_intro r2 s2 : forall s1 r1,
  fullmatch r1 s1 = true -> fullmatch r2 s2 = true ->
  fullmatch (Cat r1 r2) (s1 ++ s2) = true.
Proof.
  induction s1 as [|c s1 IH]; intros r1 H1 H2.
  - simpl in *. destruct s2 as [|d s2]; simpl in *.
    + now rewrite H1, H2.
    + rewrite fullmatch_alt, H1, H2. apply orb_true_r.
  - simpl in *. rewrite fullmatch_alt, (IH _ H1 H2). reflexivity.
Qed.

Lemma fullmatch_cat_inv r2 : forall s r1,
  fullmatch (Cat r1 r2) s = true ->
  exists s1 s2, s = s1 ++ s2 /\
                fullmatch r1 s1 = true /\ fullmatch r2 s2 = true.
Proof.
  induction s as [|c s IH]; intros r1 H.
  - simpl in H. apply andb_prop in H. destruct H. exists [], []. auto.
  - simpl in H. rewrite fullmatch_alt in H.
    apply orb_prop in H. destruct H as [H|H].
    + destruct (IH _ H) as (s1 & s2 & -> & H1 & H2).
      exists (c :: s1), s2. auto.
    + destruct (nullable r1) eqn:E.
      * exists [], (c :: s). auto.
      * rewrite fullmatch_empty in H. discriminate.
Qed.

Lemma fullmatch_class_inv p s :
  fullmatch (Class p) s = true -> exists c, s = [c] /\ p c = true.
Proof.
  destruct s as [|c [|d s]]; simpl; intros H.
  - discriminate.
  - exists c. destruct (p c); [auto | discriminate].
  - destruct (p c); simpl in H; rewrite fullmatch_empty in H; discriminate.
Qed.

Lemma fullmatch_class_intro p c : p c = true -> fullmatch (Class p) [c] = true.
Proof. intros H. simpl. now rewrite H. Qed.

(** One more round of a repetition. *)
Lemma fullmatch_rep_intro r lo hi c u v :
  fullmatch r (c :: u) = true ->
  fullmatch (Rep r (Nat.pred lo) hi) v = true ->
  fullmatch (Rep r lo (S hi)) ((c :: u) ++ v) = true.
Proof.
  intros H1 H2. simpl. now apply fullmatch_cat_intro.
Qed.

Lemma fullmatch_rep_inv r lo hi s :
  nullable r = false ->
  fullmatch (Rep r lo hi) s = true ->
  (s = [] /\ lo = 0%nat) \/
  exists hi' c u v,
    hi = S hi' /\ s = (c :: u) ++ v /\ fullmatch r (c :: u) = true /\
    fullmatch (Rep r (Nat.pred lo) hi') v = true.
Proof.
  intros Hr H. destruct s as [|c s].
  - left. simpl in H. rewrite Hr, orb_false_r in H.
    apply Nat.eqb_eq in H. auto.
  - right. simpl in H. destruct hi as [|hi'].
    + rewrite fullmatch_empty in H. discriminate.
    + destruct (fullmatch_cat_inv _ _ _ H) as (u & v & -> & Hu & Hv).
      exists hi', c, u, v. auto.
Qed.

Lemma char_blocks_search r tok c :
  accepts_char r c = false -> is_newline c = false -> In c tok ->
  search_anchored r tok = false.
Proof.
  intros Hr Hn Hin. destruct (search_anchored r tok) eqn:E; auto.
  destruct (search_anchored_chars _ _ _ E Hin); congruence.
Qed.

(** [search_anchored] is a full match of the string or of the string
    without its final newline. *)
Lemma search_anchored_inv r s :
  search_anchored r s = true ->
  fullmatch r s = true \/
  exists body c, s = body ++ [c] /\ is_newline c = true /\
                 fullmatch r body = true.
Proof.
  unfold search_anchored. intros H.
  apply orb_prop in H. destruct H as [H|H]; [auto|]. right.
  destruct (rev s) as [|c body] eqn:E; [discriminate|].
  apply andb_prop in H. destruct H as [Hc Hb].
  exists (rev body), c. split; [|auto].
  rewrite <- (rev_involutive s), E. reflexivity.
Qed.

End RegexShapes.

Import RegexShapes.

(** ** The shape of a decimal token *)

Lemma is_comma_char c : is_comma c = true -> c = ","%char.
Proof.
  destruct c as [[] [] [] [] [] [] [] []]; vm_compute; intros H;
    try discriminate H; reflexivity.
Qed.

Lemma is_newline_char c : is_newline c = true -> c = ascii_of_nat 10.
Proof.
  destruct c as [[] [] [] [] [] [] [] []]; vm_compute; intros H;
    try discriminate H; reflexivity.
Qed.

Lemma digit_field_match f :
  fullmatch (Rep (Class is_digit) 1 3) f = true <-> decimal_field f.
Proof.
  rewrite fullmatch_rep_class. unfold decimal_field. split.
  - intros H. apply andb_prop in H. destruct H as [H1 H2].
    apply andb_prop in H2. destruct H2 as [H2 H3].
    apply Nat.leb_le in H2, H3. auto.
  - intros [H1 [H2 H3]]. rewrite H1.
    apply Nat.leb_le in H2, H3. now rewrite H2, H3.
Qed.

Lemma group_match_inv s :
  fullmatch (Cat (Rep (Class is_digit) 1 3) (Class is_comma)) s = true ->
  exists f, s = f ++ [","%char] /\ decimal_field f.
Proof.
  intros H. destruct (fullmatch_cat_inv _ _ _ H) as (f & k & -> & Hf & Hk).
  destruct (fullmatch_class_inv _ _ Hk) as (c & -> & Hc).
  apply is_comma_char in Hc. subst. exists f. split; [reflexivity|].
  now apply digit_field_match.
Qed.

Lemma group_match_intro f :
  decimal_field f ->
  fullmatch (Cat (Rep (Class is_digit) 1 3) (Class is_comma))
            (f ++ [","%char]) = true.
Proof.
  intros Hf. apply fullmatch_cat_intro.
  - now apply digit_field_match.
  - reflexivity.
Qed.

Lemma decimal_field_nonempty f : decimal_field f -> exists c u, f = c :: u.
Proof.
  intros [_ [H _]]. destruct f as [|c u]; [simpl in H; lia | eauto].
Qed.

Lemma decimal_match_intro f1 f2 f3 f4 :
  decimal_field f1 -> decimal_field f2 -> decimal_field f3 ->
  decimal_field f4 ->
  fullmatch decimal_pattern (decimal_token f1 f2 f3 f4) = true.
Proof.
  intros H1 H2 H3 H4. unfold decimal_pattern, decimal_token.
  replace (f1 ++ ","%char :: f2 ++ ","%char :: f3 ++ ","%char :: f4)
    with (((f1 ++ [","%char]) ++ (f2 ++ [","%char]) ++ (f3 ++ [","%char]) ++ [])
          ++ f4)
    by (rewrite app_nil_r, <- !app_assoc; reflexivity).
  apply fullmatch_cat_intro; [|now apply digit_field_match].
  pose proof (group_match_intro f1 H1) as G1.
  pose proof (group_match_intro f2 H2) as G2.
  pose proof (group_match_intro f3 H3) as G3.
  destruct (decimal_field_nonempty f1 H1) as (c1 & u1 & ->).
  destruct (decimal_field_nonempty f2 H2) as (c2 & u2 & ->).
  destruct (decimal_field_nonempty f3 H3) as (c3 & u3 & ->).
  apply (fullmatch_rep_intro _ 3 2 c1 (u1 ++ [","%char])); [exact G1|].
  apply (fullmatch_rep_intro _ 2 1 c2 (u2 ++ [","%char])); [exact G2|].
  apply (fullmatch_rep_intro _ 1 0 c3 (u3 ++ [","%char])); [exact G3|].
  reflexivity.
Qed.

Lemma decimal_match_inv s :
  fullmatch decimal_pattern s = true ->
  exists f1 f2 f3 f4,
    s = decimal_token f1 f2 f3 f4 /\
    decimal_field f1 /\ decimal_field f2 /\ decimal_field f3 /\
    decimal_field f4.
Proof.
  intros H. unfold decimal_pattern in H.
  destruct (fullmatch_cat_inv _ _ _ H) as (g & f4 & -> & Hg & H4).
  apply digit_field_match in H4.
  assert (Hn : nullable (Cat (Rep (Class is_digit) 1 3) (Class is_comma))
               = false) by reflexivity.
  destruct (fullmatch_rep_inv _ _ _ _ Hn Hg)
    as [[_ E] | (h1 & c1 & u1 & v1 & E1 & -> & G1 & Hv1)]; [discriminate|].
  injection E1 as <-. cbn [Nat.pred] in Hv1.
  destruct (fullmatch_rep_inv _ _ _ _ Hn Hv1)
    as [[_ E] | (h2 & c2 & u2 & v2 & E2 & -> & G2 & Hv2)]; [discriminate|].
  injection E2 as <-. cbn [Nat.pred] in Hv2.
  destruct (fullmatch_rep_inv _ _ _ _ Hn Hv2)
    as [[_ E] | (h3 & c3 & u3 & v3 & E3 & -> & G3 & Hv3)]; [discriminate|].
  injection E3 as <-. cbn [Nat.pred] in Hv3.
  destruct (fullmatch_rep_inv _ _ _ _ Hn Hv3)
    as [[-> _] | (h4 & c4 & u4 & v4 & E4 & _)]; [|discriminate].
  destruct (group_match_inv _ G1) as (f1 & E1 & F1).
  destruct (group_match_inv _ G2) as (f2 & E2 & F2).
  destruct (group_match_inv _ G3) as (f3 & E3 & F3).
  exists f1, f2, f3, f4. split; [|auto].
  rewrite E1, E2, E3. unfold decimal_token.
  rewrite app_nil_r, <- !app_assoc. reflexivity.
Qed.

(** ** Reading the fields of a decimal token *)

Lemma digit_codes c : is_digit c = true -> 48 <= code c <= 57.
Proof.
  unfold is_digit, char_between. intros H. apply andb_prop in H.
  destruct H as [H1 H2]. apply Z.leb_le in H1, H2. lia.
Qed.

Lemma digit_not_int_space c : is_digit c = true -> Py.is_int_space c = false.
Proof.
  intros H. apply digit_codes in H. unfold Py.is_int_space, char_between.
  repeat (apply orb_false_intro; [|apply Z.eqb_neq; lia]).
  apply andb_false_iff. right. apply Z.leb_gt. lia.
Qed.

Lemma digit_not_comma c : is_digit c = true -> is_comma c = false.
Proof.
  intros H. apply digit_codes in H. unfold is_comma. apply Z.eqb_neq. lia.
Qed.

Lemma lstrip_with_keeps p c s :
  p c = false -> Py.lstrip_with p (c :: s) = c :: s.
Proof. intros H. simpl. now rewrite H. Qed.

Lemma lstrip_with_drops p ws s :
  forallb p ws = true -> Py.lstrip_with p (ws ++ s) = Py.lstrip_with p s.
Proof.
  induction ws as [|w ws IH]; simpl; intros H; [reflexivity|].
  apply andb_prop in H. destruct H as [Hw Hws]. rewrite Hw. auto.
Qed.

(** Trailing characters of the stripped class do not count. *)
Lemma rstrip_with_drops p s ws :
  forallb p ws = true -> Py.rstrip_with p (s ++ ws) = Py.rstrip_with p s.
Proof.
  intros H. unfold Py.rstrip_with. rewrite rev_app_distr.
  rewrite lstrip_with_drops; [reflexivity|].
  rewrite forallb_forall in *. intros x Hx. apply H. now apply in_rev.
Qed.

Lemma rstrip_with_keeps p s c :
  p c = false -> Py.rstrip_with p (s ++ [c]) = s ++ [c].
Proof.
  intros H. unfold Py.rstrip_with. rewrite rev_app_distr. simpl.
  rewrite H. simpl. now rewrite rev_involutive.
Qed.

Lemma last_char (s : str) : s <> [] -> exists u c, s = u ++ [c].
Proof.
  intros H. destruct (exists_last H) as (u & c & ->). eauto.
Qed.

(** [int] leaves a string of digits as it is, and drops newlines after
    it. *)
Lemma int_strip_digits ds ws :
  forallb is_digit ds = true -> ds <> [] ->
  forallb Py.is_int_space ws = true ->
  Py.int_strip (ds ++ ws) = ds.
Proof.
  intros Hd Hne Hws. unfold Py.int_strip.
  destruct ds as [|c ds']; [congruence|].
  cbn [forallb] in Hd. apply andb_prop in Hd. destruct Hd as [Hc Hd].
  cbn [app]. rewrite lstrip_with_keeps by now apply digit_not_int_space.
  change (c :: ds' ++ ws) with ((c :: ds') ++ ws).
  rewrite rstrip_with_drops by assumption.
  destruct (last_char (c :: ds') ltac:(discriminate)) as (u & l & E).
  rewrite E. apply rstrip_with_keeps. apply digit_not_int_space.
  assert (Hall : forallb is_digit (c :: ds') = true)
    by (cbn [forallb]; now rewrite Hc, Hd).
  rewrite forallb_forall in Hall. apply Hall. rewrite E.
  apply in_or_app. right. simpl. auto.
Qed.

Lemma digits_value_digits ds : forall acc,
  forallb is_digit ds = true ->
  Py.digits_value 10 acc ds =
  Ok (fold_left (fun a c => 10 * a + (code c - 48)) ds acc).
Proof.
  induction ds as [|c ds IH]; intros acc H; [reflexivity|].
  cbn [forallb] in H. apply andb_prop in H. destruct H as [Hc Hd].
  cbn [Py.digits_value fold_left]. unfold Py.digit_value. rewrite Hc.
  pose proof (digit_codes c Hc).
  destruct (Z.ltb_spec (code c - 48) 10); [|lia]. now apply IH.
Qed.

(** [int] on one to many digits, possibly followed by white space. *)
Lemma int_decimal_digits ds ws :
  forallb is_digit ds = true -> ds <> [] ->
  forallb Py.is_int_space ws = true ->
  Py.int_decimal (ds ++ ws) = Ok (decimal_value ds).
Proof.
  intros Hd Hne Hws. unfold Py.int_decimal.
  rewrite (int_strip_digits ds ws Hd Hne Hws).
  destruct ds as [|c ds']; [congruence|].
  assert (Hc : is_digit c = true)
    by (cbn [forallb] in Hd; apply andb_prop in Hd; tauto).
  pose proof (digit_codes c Hc).
  destruct (Z.eqb_spec (code c) 45); [lia|].
  destruct (Z.eqb_spec (code c) 43); [lia|].
  unfold Py.number_value, decimal_value. now apply digits_value_digits.
Qed.

Lemma fold_digits_bounds ds : forall acc,
  forallb is_digit ds = true -> 0 <= acc ->
  0 <= fold_left (fun a c => 10 * a + (code c - 48)) ds acc
    < (acc + 1) * 10 ^ Z.of_nat (List.length ds).
Proof.
  induction ds as [|c ds IH]; intros acc H Hacc.
  - simpl. lia.
  - cbn [forallb] in H. apply andb_prop in H. destruct H as [Hc Hd].
    pose proof (digit_codes c Hc).
    cbn [fold_left List.length]. rewrite Nat2Z.inj_succ, Z.pow_succ_r by lia.
    specialize (IH (10 * acc + (code c - 48)) Hd ltac:(lia)).
    pose proof (pow2_pos 0 ltac:(lia)).
    assert (0 < 10 ^ Z.of_nat (List.length ds))
      by (apply Z.pow_pos_nonneg; lia).
    nia.
Qed.

Lemma decimal_field_value f : decimal_field f -> parsed_channel (decimal_value f).
Proof.
  intros [Hd [H1 H3]]. unfold parsed_channel, decimal_value.
  pose proof (fold_digits_bounds f 0 Hd ltac:(lia)) as [Hlo Hhi].
  assert (10 ^ Z.of_nat (List.length f) <= 10 ^ 3)
    by (apply Z.pow_le_mono_r; lia).
  change (10 ^ 3) with 1000 in *. lia.
Qed.

Lemma split_on_field sep f : forall cur rest,
  forallb (fun c => negb (sep c)) f = true ->
  Py.split_on sep cur (f ++ rest) = Py.split_on sep (rev f ++ cur) rest.
Proof.
  induction f as [|c f IH]; intros cur rest H; [reflexivity|].
  cbn [forallb] in H. apply andb_prop in H. destruct H as [Hc Hf].
  apply negb_true_iff in Hc. cbn [app Py.split_on]. rewrite Hc.
  rewrite IH by assumption. cbn [rev]. now rewrite <- app_assoc.
Qed.

Lemma split_field_then_sep sep f c rest :
  forallb (fun c => negb (sep c)) f = true -> sep c = true ->
  Py.split_on sep [] (f ++ c :: rest) = f :: Py.split_on sep [] rest.
Proof.
  intros Hf Hc. rewrite split_on_field by assumption.
  cbn [Py.split_on]. rewrite Hc, app_nil_r, rev_involutive. reflexivity.
Qed.

Lemma split_last_field sep f :
  forallb (fun c => negb (sep c)) f = true ->
  Py.split_on sep [] f = [f].
Proof.
  intros Hf. rewrite <- (app_nil_r f) at 1.
  rewrite split_on_field by assumption.
  cbn [Py.split_on]. now rewrite app_nil_r, rev_involutive.
Qed.

Lemma digits_no_comma f :
  forallb is_digit f = true ->
  forallb (fun c => negb (is_comma c)) f = true.
Proof.
  intros H. rewrite forallb_forall in *. intros c Hc.
  now rewrite (digit_not_comma c (H c Hc)).
Qed.

Lemma decimal_token_app f1 f2 f3 f4 ws :
  decimal_token f1 f2 f3 f4 ++ ws =
  f1 ++ ","%char :: f2 ++ ","%char :: f3 ++ ","%char :: (f4 ++ ws).
Proof.
  unfold decimal_token.
  repeat (rewrite <- app_assoc; rewrite <- app_comm_cons). reflexivity.
Qed.

Lemma split_decimal_token f1 f2 f3 f4 ws :
  decimal_field f1 -> decimal_field f2 -> decimal_field f3 ->
  decimal_field f4 ->
  forallb (fun c => negb (is_comma c)) ws = true ->
  Py.split is_comma (decimal_token f1 f2 f3 f4 ++ ws) = [f1; f2; f3; f4 ++ ws].
Proof.
  intros [D1 _] [D2 _] [D3 _] [D4 _] Hws. unfold Py.split.
  rewrite decimal_token_app.
  rewrite !split_field_then_sep by (auto using digits_no_comma).
  rewrite split_last_field; [reflexivity|].
  rewrite forallb_app, Hws, digits_no_comma by assumption. reflexivity.
Qed.

Lemma comma_in_decimal_token f1 f2 f3 f4 ws :
  In ","%char (decimal_token f1 f2 f3 f4 ++ ws).
Proof.
  unfold decimal_token. apply in_or_app. left.
  apply in_or_app. right. simpl. auto.
Qed.

(** A decimal token, with or without white space after it that is no
    comma, parses to the values of its four fields. *)
Lemma format_color_decimal_fields f1 f2 f3 f4 ws :
  decimal_field f1 -> decimal_field f2 -> decimal_field f3 ->
  decimal_field f4 ->
  forallb Py.is_int_space ws = true ->
  search_anchored decimal_pattern (decimal_token f1 f2 f3 f4 ++ ws) = true ->
  format_color (decimal_token f1 f2 f3 f4 ++ ws) =
  Ok (Some [decimal_value f1; decimal_value f2; decimal_value f3;
            decimal_value f4]).
Proof.
  intros H1 H2 H3 H4 Hws Hsearch. unfold format_color.
  rewrite (char_blocks_search hex_pattern _ ","%char eq_refl eq_refl
             (comma_in_decimal_token f1 f2 f3 f4 ws)).
  rewrite Hsearch.
  assert (Hnc : forallb (fun c => negb (is_comma c)) ws = true).
  { rewrite forallb_forall in *. intros c Hc. specialize (Hws c Hc).
    destruct (is_comma c) eqn:E; [|reflexivity].
    apply is_comma_char in E. subst. discriminate. }
  rewrite (split_decimal_token f1 f2 f3 f4 ws H1 H2 H3 H4 Hnc).
  cbn [Py.index nth_error bind].
  assert (Hval : forall f w, decimal_field f ->
            forallb Py.is_int_space w = true ->
            Py.int_decimal (f ++ w) = Ok (decimal_value f)).
  { intros f w [Hd [Hl _]] Hw. apply int_decimal_digits; auto.
    intros ->. simpl in Hl. lia. }
  assert (Hval0 : forall f, decimal_field f ->
            Py.int_decimal f = Ok (decimal_value f)).
  { intros f Hf. rewrite <- (app_nil_r f) at 1. now apply Hval. }
  rewrite (Hval0 f1 H1), (Hval0 f2 H2), (Hval0 f3 H3), (Hval f4 ws H4 Hws).
  reflexivity.
Qed.

(** ** Every case of the parser *)

Lemma channel_parsed v : channel v -> parsed_channel v.
Proof. unfold channel, parsed_channel. lia. Qed.

Lemma int_base0_trailing ds ws :
  forallb Py.is_int_space ws = true ->
  Py.int_base0 (lit "0x" ++ ds ++ ws) = Py.int_base0 (lit "0x" ++ ds).
Proof.
  intros H. unfold Py.int_base0, Py.int_strip. cbn [lit list_ascii_of_string app].
  rewrite !lstrip_with_keeps by reflexivity.
  change ("0"%char :: "x"%char :: ds ++ ws)
    with (("0"%char :: "x"%char :: ds) ++ ws).
  now rewrite rstrip_with_drops.
Qed.

Lemma int_base0_one_digit c :
  is_lower_hex c = true -> exists v, Py.int_base0 (lit "0x" ++ [c]) = Ok v.
Proof.
  intros H. apply lower_hex_letter in H. simpl in H.
  repeat (destruct H as [<-|H]; [eexists; vm_compute; reflexivity|]).
  contradiction.
Qed.

Lemma search_with_newline r body c :
  is_newline c = true -> fullmatch r body = true ->
  search_anchored r (body ++ [c]) = true.
Proof.
  intros Hc Hb. unfold search_anchored. rewrite rev_unit, Hc, rev_involutive, Hb.
  apply orb_true_r.
Qed.

Lemma hex_match_shape body :
  fullmatch hex_pattern body = true ->
  forallb is_lower_hex body = true /\
  (List.length body = 3 \/ List.length body = 6 \/ List.length body = 8)%nat.
Proof.
  unfold hex_pattern. rewrite !fullmatch_alt, !fullmatch_rep_class.
  intros H. destruct (forallb is_lower_hex body); [|discriminate].
  split; [reflexivity|]. cbn [andb] in H.
  repeat (apply orb_prop in H; destruct H as [H|H]);
    apply andb_prop in H; destruct H as [Hlo Hhi];
    apply Nat.leb_le in Hlo, Hhi; lia.
Qed.

Lemma hex3_match c1 c2 c3 :
  is_lower_hex c1 = true -> is_lower_hex c2 = true ->
  is_lower_hex c3 = true -> fullmatch hex_pattern [c1; c2; c3] = true.
Proof.
  intros H1 H2 H3. unfold hex_pattern.
  rewrite !fullmatch_alt, !fullmatch_rep_class. cbn [forallb List.length].
  rewrite H1, H2, H3. reflexivity.
Qed.

Lemma short_hex_newline_raises tok :
  short_hex_newline tok -> format_color tok = Raise ValueError.
Proof.
  intros (c1 & c2 & c3 & H1 & H2 & H3 & ->).
  pose proof (search_with_newline hex_pattern [c1; c2; c3] (ascii_of_nat 10)
                eq_refl (hex3_match c1 c2 c3 H1 H2 H3)) as Hsearch.
  cbn [app] in Hsearch. unfold format_color. rewrite Hsearch.
  cbn [app List.length Nat.eqb Py.slice Py.slice_from Nat.sub firstn skipn].
  destruct (byte_in_range c1 c2) as (r & Hr & _); auto.
  rewrite Hr. cbn [bind].
  change [c3; ascii_of_nat 10] with ([c3] ++ [ascii_of_nat 10]).
  rewrite (int_base0_trailing [c3] [ascii_of_nat 10] eq_refl).
  destruct (int_base0_one_digit c3) as (g & Hg); auto.
  rewrite Hg. reflexivity.
Qed.

(** A hex token followed by a newline: the three-digit form raises; the
    two longer forms parse as their first six digits do, the length being
    neither 3 nor 8 any more (so that eight digits lose their alpha). *)
Lemma hex_newline_cases body c :
  fullmatch hex_pattern body = true -> is_newline c = true ->
  (short_hex_newline (body ++ [c]) /\
   format_color (body ++ [c]) = Raise ValueError) \/
  (fullmatch hex_pattern (firstn 6 body) = true /\
   format_color (body ++ [c]) = format_color (firstn 6 body)).
Proof.
  intros Hfull Hc.
  pose proof (search_with_newline _ _ _ Hc Hfull) as Hsearch.
  destruct (hex_match_shape body Hfull) as [Hall Hlen].
  apply is_newline_char in Hc. subst c.
  assert (H6 : forall t, List.length t = 6%nat ->
            forallb is_lower_hex t = true ->
            fullmatch hex_pattern t = true).
  { intros t Ht Hf. unfold hex_pattern.
    rewrite !fullmatch_alt, !fullmatch_rep_class, Hf, Ht. reflexivity. }
  assert (Hs6 : forall t, fullmatch hex_pattern t = true ->
            search_anchored hex_pattern t = true).
  { intros t Ht. unfold search_anchored. now rewrite Ht. }
  destruct Hlen as [Hlen | [Hlen | Hlen]];
    destruct body as [|c1 [|c2 [|c3 [|c4 [|c5 [|c6 [|c7 [|c8 [|]]]]]]]]];
    try discriminate.
  - left. cbn [forallb] in Hall.
    repeat (apply andb_prop in Hall; destruct Hall as [? Hall]).
    assert (Hshort : short_hex_newline ([c1; c2; c3] ++ [ascii_of_nat 10]))
      by (exists c1, c2, c3; auto).
    split; [exact Hshort | now apply short_hex_newline_raises].
  - right. cbn [firstn]. split; [exact Hfull|].
    unfold format_color. rewrite Hsearch, (Hs6 _ Hfull). reflexivity.
  - right. cbn [firstn].
    assert (Hfull6 : fullmatch hex_pattern [c1; c2; c3; c4; c5; c6] = true).
    { apply H6; [reflexivity|]. cbn [forallb] in *.
      repeat (apply andb_prop in Hall; destruct Hall as [-> Hall]).
      reflexivity. }
    split; [exact Hfull6|].
    unfold format_color. rewrite Hsearch, (Hs6 _ Hfull6). reflexivity.
Qed.

Lemma hex_token_parsed tok :
  fullmatch hex_pattern tok = true ->
  exists rgba, format_color tok = Ok (Some rgba) /\ parsed_sample rgba.
Proof.
  intros H.
  destruct (format_color_hex_in_range tok H)
    as (r & g & b & a & Hf & Hr & Hg & Hb & Ha).
  exists [r; g; b; a]. split; [exact Hf|].
  exists r, g, b, a. split; [reflexivity|].
  repeat (split; [now apply channel_parsed|]). now apply channel_parsed.
Qed.

Lemma decimal_token_parsed f1 f2 f3 f4 ws :
  decimal_field f1 -> decimal_field f2 -> decimal_field f3 ->
  decimal_field f4 ->
  forallb Py.is_int_space ws = true ->
  search_anchored decimal_pattern (decimal_token f1 f2 f3 f4 ++ ws) = true ->
  exists rgba,
    format_color (decimal_token f1 f2 f3 f4 ++ ws) = Ok (Some rgba) /\
    parsed_sample rgba.
Proof.
  intros H1 H2 H3 H4 Hws Hs. eexists. split.
  - now apply format_color_decimal_fields.
  - exists (decimal_value f1), (decimal_value f2), (decimal_value f3),
           (decimal_value f4).
    split; [reflexivity|].
    repeat (split; [now apply decimal_field_value|]).
    now apply decimal_field_value.
Qed.

(** Whatever the token, [format_color] either meets the one shape it
    raises on, or returns: [None], or a sample of four parsed channels. *)
Lemma format_color_cases tok :
  (short_hex_newline tok /\ format_color tok = Raise ValueError) \/
  format_color tok = Ok None \/
  exists rgba, format_color tok = Ok (Some rgba) /\ parsed_sample rgba.
Proof.
  destruct (search_anchored hex_pattern tok) eqn:Ehex.
  - destruct (search_anchored_inv _ _ Ehex)
      as [Hfull | (body & c & -> & Hc & Hfull)].
    + right. right. now apply hex_token_parsed.
    + destruct (hex_newline_cases body c Hfull Hc)
        as [[Hs Hr] | [Hfull6 Heq]]; [auto|].
      right. right. rewrite Heq. now apply hex_token_parsed.
  - destruct (search_anchored decimal_pattern tok) eqn:Edec.
    + right. right.
      destruct (search_anchored_inv _ _ Edec)
        as [Hfull | (body & c & -> & Hc & Hfull)].
      * destruct (decimal_match_inv _ Hfull)
          as (f1 & f2 & f3 & f4 & -> & H1 & H2 & H3 & H4).
        rewrite <- (app_nil_r (decimal_token f1 f2 f3 f4)) in *.
        now apply decimal_token_parsed.
      * destruct (decimal_match_inv _ Hfull)
          as (f1 & f2 & f3 & f4 & -> & H1 & H2 & H3 & H4).
        apply decimal_token_parsed; auto.
        apply is_newline_char in Hc. subst. reflexivity.
    + right. left. unfold format_color. now rewrite Ehex, Edec.
Qed.

(** X1. [format_color] raises on one shape of token only, three lowercase
    hex digits followed by a newline, and then it is [ValueError]: the
    pattern's [$] lets the newline through, the length 4 sends the token to
    the six-digit slices, and the blue slice is empty. *)
Theorem format_color_raises_iff (tok : str) (e : exn) :
  format_color tok = Raise e <-> e = ValueError /\ short_hex_newline tok.
Proof.
  split.
  - intros H.
    destruct (format_color_cases tok)
      as [[Hs Hr] | [Hn | (rgba & Hp & _)]]; rewrite H in *;
      try discriminate.
    injection Hr as ->. auto.
  - intros [-> Hs]. now apply short_hex_newline_raises.
Qed.

(** X2. Whatever [format_color] parses is a sample of exactly four values,
    none negative and none above 999. *)
Theorem format_color_output_bound (tok : str) (rgba : list Z) :
  format_color tok = Ok (Some rgba) -> parsed_sample rgba.
Proof.
  intros H.
  destruct (format_color_cases tok)
    as [[_ Hr] | [Hn | (rgba' & Hp & Hs)]]; rewrite H in *;
    try discriminate.
  injection Hp as ->. exact Hs.
Qed.

Lemma format_color_output_bound_witness :
  parsed_sample [999; 0; 0; 255].
Proof.
  apply (format_color_output_bound (lit "999,0,0,255")). reflexivity.
Defined.

(** X3. A token of four comma-separated fields of one to three digits
    parses to the decimal values of its fields, each in [0, 999]; leading
    zeros do not matter and there is no other bound. *)
Theorem format_color_decimal_values (f1 f2 f3 f4 : str) :
  decimal_field f1 -> decimal_field f2 -> decimal_field f3 ->
  decimal_field f4 ->
  format_color (decimal_token f1 f2 f3 f4) =
    Ok (Some [decimal_value f1; decimal_value f2; decimal_value f3;
              decimal_value f4]) /\
  parsed_channel (decimal_value f1) /\ parsed_channel (decimal_value f2) /\
  parsed_channel (decimal_value f3) /\ parsed_channel (decimal_value f4).
Proof.
  intros H1 H2 H3 H4. split; [|auto using decimal_field_value].
  pose proof (decimal_match_intro f1 f2 f3 f4 H1 H2 H3 H4) as Hfull.
  pose proof (format_color_decimal_fields f1 f2 f3 f4 [] H1 H2 H3 H4 eq_refl)
    as H.
  rewrite app_nil_r in H. apply H.
  unfold search_anchored. now rewrite Hfull.
Qed.

Lemma format_color_decimal_values_witness :
  format_color (decimal_token (lit "10") (lit "020") (lit "3") (lit "999")) =
    Ok (Some [decimal_value (lit "10"); decimal_value (lit "020");
              decimal_value (lit "3"); decimal_value (lit "999")]) /\
  parsed_channel (decimal_value (lit "10")) /\
  parsed_channel (decimal_value (lit "020")) /\
  parsed_channel (decimal_value (lit "3")) /\
  parsed_channel (decimal_value (lit "999")).
Proof.
  apply format_color_decimal_values;
    (split; [reflexivity | simpl; lia]).
Defined.

(** ** Short and six-digit hex tokens *)

Lemma short_byte c :
  is_lower_hex c = true ->
  exists d, Py.digit_value c = Some d /\
            Py.int_base0 (lit "0x" ++ [c; c]) = Ok (17 * d).
Proof.
  intros H. apply lower_hex_letter in H. simpl in H.
  repeat (destruct H as [<-|H]; [eexists; split; vm_compute; reflexivity|]).
  contradiction.
Qed.

(** X4. Short hex expansion: a three-digit token parses as the six-digit
    token with each digit doubled, to 17 times each digit's value, with
    alpha 255. *)
Theorem short_hex_expands (c1 c2 c3 : ascii) :
  is_lower_hex c1 = true -> is_lower_hex c2 = true ->
  is_lower_hex c3 = true ->
  format_color [c1; c2; c3] = format_color [c1; c1; c2; c2; c3; c3] /\
  exists d1 d2 d3,
    Py.digit_value c1 = Some d1 /\ Py.digit_value c2 = Some d2 /\
    Py.digit_value c3 = Some d3 /\
    format_color [c1; c2; c3] = Ok (Some [17 * d1; 17 * d2; 17 * d3; 255]).
Proof.
  intros H1 H2 H3.
  assert (Hs3 : search_anchored hex_pattern [c1; c2; c3] = true).
  { unfold search_anchored. now rewrite (hex3_match c1 c2 c3 H1 H2 H3). }
  assert (Hs6 : search_anchored hex_pattern [c1; c1; c2; c2; c3; c3] = true).
  { unfold search_anchored, hex_pattern.
    rewrite !fullmatch_alt, !fullmatch_rep_class. cbn [forallb List.length].
    rewrite H1, H2, H3. reflexivity. }
  destruct (short_byte c1 H1) as (d1 & D1 & V1).
  destruct (short_byte c2 H2) as (d2 & D2 & V2).
  destruct (short_byte c3 H3) as (d3 & D3 & V3).
  unfold format_color. rewrite Hs3, Hs6.
  cbn [List.length Nat.eqb Py.index nth_error bind
       Py.slice Py.slice_from Nat.sub firstn skipn].
  split; [reflexivity|].
  exists d1, d2, d3. rewrite V1, V2, V3. auto.
Qed.

Lemma short_hex_expands_witness :
  format_color (lit "abc") = format_color (lit "aabbcc") /\
  exists d1 d2 d3,
    Py.digit_value "a"%char = Some d1 /\ Py.digit_value "b"%char = Some d2 /\
    Py.digit_value "c"%char = Some d3 /\
    format_color (lit "abc") = Ok (Some [17 * d1; 17 * d2; 17 * d3; 255]).
Proof.
  apply (short_hex_expands "a"%char "b"%char "c"%char); reflexivity.
Defined.

(** X5. A six-digit token is the eight-digit token with alpha [ff]: both
    parse to the same sample, whose alpha is 255. *)
Theorem six_digits_default_alpha (tok : str) :
  List.length tok = 6%nat -> forallb is_lower_hex tok = true ->
  format_color tok = format_color (tok ++ lit "ff") /\
  exists r g b,
    format_color tok = Ok (Some [r; g; b; 255]) /\
    channel r /\ channel g /\ channel b.
Proof.
  intros Hlen Hall.
  destruct tok as [|c1 [|c2 [|c3 [|c4 [|c5 [|c6 [|]]]]]]]; try discriminate.
  assert (Hs6 : search_anchored hex_pattern [c1; c2; c3; c4; c5; c6] = true).
  { unfold search_anchored, hex_pattern.
    rewrite !fullmatch_alt, !fullmatch_rep_class, Hall. reflexivity. }
  assert (Hs8 : search_anchored hex_pattern
                  ([c1; c2; c3; c4; c5; c6] ++ lit "ff") = true).
  { apply hex_pattern_matches; [reflexivity|].
    rewrite forallb_app, Hall. reflexivity. }
  cbn [forallb] in Hall.
  repeat (apply andb_prop in Hall; destruct Hall as [? Hall]).
  destruct (byte_in_range c1 c2) as (r & Hr & Cr); auto.
  destruct (byte_in_range c3 c4) as (g & Hg & Cg); auto.
  destruct (byte_in_range c5 c6) as (b & Hb & Cb); auto.
  change (lit "ff") with ["f"%char; "f"%char] in *.
  cbn [app] in *.
  unfold format_color. rewrite Hs6, Hs8.
  cbn [List.length Nat.eqb Py.slice Py.slice_from Nat.sub firstn skipn].
  split; [reflexivity|].
  exists r, g, b. rewrite Hr, Hg, Hb. auto.
Qed.

Lemma six_digits_default_alpha_witness :
  format_color (lit "12ab00") = format_color (lit "12ab00" ++ lit "ff") /\
  exists r g b,
    format_color (lit "12ab00") = Ok (Some [r; g; b; 255]) /\
    channel r /\ channel g /\ channel b.
Proof.
  apply (six_digits_default_alpha (lit "12ab00")); reflexivity.
Defined.

(** ** The reader *)

Lemma lstrip_with_head p s c t :
  Py.lstrip_with p s = c :: t -> p c = false.
Proof.
  induction s as [|x s IH]; simpl; [discriminate|].
  destruct (p x) eqn:E; [exact IH|]. now intros [= <- _].
Qed.

(** What [rstrip] returns does not end in white space. *)
Lemma rstrip_last line u c :
  Py.rstrip line = u ++ [c] -> Py.is_space c = false.
Proof.
  unfold Py.rstrip, Py.rstrip_with. intros H.
  apply (f_equal (@rev ascii)) in H.
  rewrite rev_involutive, rev_unit in H.
  now apply lstrip_with_head in H.
Qed.

(** On a stripped line the parser never raises. *)
Lemma format_color_stripped line :
  format_color (Py.rstrip line) = Ok None \/
  exists rgba,
    format_color (Py.rstrip line) = Ok (Some rgba) /\ parsed_sample rgba.
Proof.
  destruct (format_color_cases (Py.rstrip line)) as [[Hs _] | H]; [|exact H].
  destruct Hs as (c1 & c2 & c3 & _ & _ & _ & E).
  change [c1; c2; c3; ascii_of_nat 10]
    with ([c1; c2; c3] ++ [ascii_of_nat 10]) in E.
  apply rstrip_last in E. discriminate.
Qed.

Lemma add_sample_ok b r g bl a :
  batch_ok b -> parsed_channel r -> parsed_channel g -> parsed_channel bl ->
  parsed_channel a -> batch_ok (add_sample b r g bl a).
Proof.
  intros (L1 & L2 & L3 & F1 & F2 & F3 & F4) Hr Hg Hb Ha.
  unfold batch_ok, add_sample. cbn [reds greens blues alphas].
  rewrite !length_app. cbn [List.length].
  repeat split; try lia; apply Forall_app; auto.
Qed.

Lemma read_lines_step line rest acc :
  (format_color (Py.rstrip line) = Ok None /\
   read_lines (line :: rest) acc = read_lines rest acc) \/
  exists r g b a,
    format_color (Py.rstrip line) = Ok (Some [r; g; b; a]) /\
    parsed_channel r /\ parsed_channel g /\ parsed_channel b /\
    parsed_channel a /\
    read_lines (line :: rest) acc = read_lines rest (add_sample acc r g b a).
Proof.
  cbn [read_lines].
  destruct (format_color_stripped line)
    as [H | (rgba & H & (r & g & b & a & -> & Hr & Hg & Hb & Ha))];
    rewrite H.
  - left. auto.
  - right. exists r, g, b, a. auto 10.
Qed.

Lemma read_lines_ok lines : forall acc,
  batch_ok acc ->
  exists b,
    read_lines lines acc = Ok b /\ batch_ok b /\
    (List.length (reds acc) <= List.length (reds b) <=
     List.length (reds acc) + List.length lines)%nat.
Proof.
  induction lines as [|line rest IH]; intros acc Hacc.
  - exists acc. simpl. split; [reflexivity|]. split; [exact Hacc | lia].
  - destruct (read_lines_step line rest acc)
      as [[_ E] | (r & g & b & a & _ & Hr & Hg & Hb & Ha & E)]; rewrite E.
    + destruct (IH acc Hacc) as (b & Hb & Hok & Hlen).
      exists b. cbn [List.length]. split; [exact Hb|]. split; [exact Hok | lia].
    + destruct (IH _ (add_sample_ok acc r g b a Hacc Hr Hg Hb Ha))
        as (b' & Hb' & Hok & Hlen).
      exists b'. unfold add_sample in Hlen. cbn [reds] in Hlen.
      rewrite length_app in Hlen. cbn [List.length] in *.
      split; [exact Hb'|]. split; [exact Hok | lia].
Qed.

Lemma empty_batch_ok : batch_ok empty_batch.
Proof. unfold batch_ok, empty_batch. simpl. repeat split; constructor. Qed.

(** X6. [read_colors] never raises, whatever the file and the command
    line hold: [rstrip] removes the newline on which [format_color] would.
    The batch it returns has four sequences of one length, of values in
    [0, 999], with at most one sample per line or token. *)
Theorem read_colors_total (lines : str) (color_cli : list str) :
  exists b,
    read_colors lines color_cli = Ok b /\ batch_ok b /\
    (List.length (reds b) <=
     List.length (Py.split is_newline lines) + List.length color_cli)%nat.
Proof.
  unfold read_colors.
  destruct (read_lines_ok (Py.split is_newline lines ++ color_cli)
              empty_batch empty_batch_ok) as (b & Hb & Hok & Hlen).
  exists b. rewrite length_app in Hlen. cbn [empty_batch reds List.length] in Hlen.
  split; [exact Hb|]. split; [exact Hok | lia].
Qed.

Lemma read_lines_app l1 : forall l2 acc,
  read_lines (l1 ++ l2) acc = (b <- read_lines l1 acc ;; read_lines l2 b).
Proof.
  induction l1 as [|line rest IH]; intros l2 acc; [reflexivity|].
  change ((line :: rest) ++ l2) with (line :: (rest ++ l2)).
  destruct (read_lines_step line (rest ++ l2) acc)
    as [[H E] | (r & g & b & a & H & _ & _ & _ & _ & E)]; rewrite E;
    destruct (read_lines_step line rest acc)
      as [[H' E'] | (r' & g' & b' & a' & H' & _ & _ & _ & _ & E')];
    rewrite E'; rewrite H in H'; try discriminate; auto.
  injection H' as <- <- <- <-. apply IH.
Qed.

(** X7. The file comes first: the batch of a file and command-line tokens
    is the batch of the file alone, continued with the tokens in their
    order; and the tokens may be read in two parts. *)
Theorem read_colors_file_then_cli (lines : str) (cli1 cli2 : list str) :
  read_colors lines (cli1 ++ cli2) =
  (b <- read_colors lines cli1 ;; read_lines cli2 b) /\
  read_colors lines cli1 = (b <- read_colors lines [] ;; read_lines cli1 b).
Proof.
  unfold read_colors. rewrite app_nil_r, app_assoc, !read_lines_app.
  split; reflexivity.
Qed.

(** X8. An invalid line or token contributes nothing: the batch is the one
    read without it. *)
Theorem read_lines_skips_invalid (l1 l2 : list str) (line : str) (acc : batch) :
  format_color (Py.rstrip line) = Ok None ->
  read_lines (l1 ++ line :: l2) acc = read_lines (l1 ++ l2) acc.
Proof.
  intros H. rewrite !read_lines_app.
  destruct (read_lines l1 acc) as [b|e]; [|reflexivity]. cbn [bind].
  cbn [read_lines]. now rewrite H.
Qed.

Lemma read_lines_skips_invalid_witness :
  read_lines ([lit "ff0000"] ++ lit "12345" :: [lit "0000ff"]) empty_batch =
  read_lines ([lit "ff0000"] ++ [lit "0000ff"]) empty_batch.
Proof.
  apply (read_lines_skips_invalid [lit "ff0000"] [lit "0000ff"] (lit "12345")).
  reflexivity.
Defined.

(** X9. White space at the end of a line or token is ignored: any run of
    the characters [str.rstrip] removes, the carriage return and the two
    Latin-1 spaces (next line and no-break space) included. *)
Theorem read_lines_trailing_space (line ws : str) (rest : list str)
    (acc : batch) :
  forallb Py.is_space ws = true ->
  read_lines ((line ++ ws) :: rest) acc = read_lines (line :: rest) acc.
Proof.
  intros H. cbn [read_lines]. unfold Py.rstrip.
  now rewrite rstrip_with_drops.
Qed.

Lemma read_lines_trailing_space_witness :
  read_lines ((lit "ff0000" ++
               [ascii_of_nat 32; ascii_of_nat 13; ascii_of_nat 160;
                ascii_of_nat 133; ascii_of_nat 28])
              :: [lit "1,2,3,4"]) empty_batch =
  read_lines (lit "ff0000" :: [lit "1,2,3,4"]) empty_batch.
Proof.
  apply read_lines_trailing_space. reflexivity.
Defined.

(** A token that ends in a no-break space is a colour like any other. *)
Lemma read_colors_no_break_space :
  read_colors [] [lit "ff0000" ++ [ascii_of_nat 160]] =
    Ok (mk_batch [255] [0] [0] [255]).
Proof. vm_compute. reflexivity. Qed.

(** ** The reducers on whole batches *)

Lemma fold_min_spec l : forall x,
  let m := fold_left (fun m y => if y <? m then y else m) l x in
  (m = x \/ In m l) /\ m <= x /\ Forall (Z.le m) l.
Proof.
  induction l as [|y l IH]; intros x; cbn zeta.
  - simpl. split; [auto | split; [lia | constructor]].
  - cbn [fold_left].
    destruct (IH (if y <? x then y else x)) as (Hin & Hle & Hall).
    set (m := fold_left _ l _) in *.
    destruct (Z.ltb_spec y x).
    + split; [destruct Hin as [->|Hin]; simpl; auto|].
      split; [lia | constructor; auto].
    + split; [destruct Hin as [->|Hin]; simpl; auto|].
      split; [lia | constructor; [lia | auto]].
Qed.

Lemma fold_max_spec l : forall x,
  let m := fold_left (fun m y => if m <? y then y else m) l x in
  (m = x \/ In m l) /\ x <= m /\ Forall (fun y => y <= m) l.
Proof.
  induction l as [|y l IH]; intros x; cbn zeta.
  - simpl. split; [auto | split; [lia | constructor]].
  - cbn [fold_left].
    destruct (IH (if x <? y then y else x)) as (Hin & Hle & Hall).
    set (m := fold_left _ l _) in *.
    destruct (Z.ltb_spec x y).
    + split; [destruct Hin as [->|Hin]; simpl; auto|].
      split; [lia | constructor; auto].
    + split; [destruct Hin as [->|Hin]; simpl; auto|].
      split; [lia | constructor; [lia | auto]].
Qed.

Lemma min_list_spec l :
  l <> [] -> exists m, Py.min_list l = Ok m /\ is_least m l.
Proof.
  destruct l as [|x l]; [congruence|]. intros _.
  destruct (fold_min_spec l x) as (Hin & Hle & Hall).
  eexists. split; [reflexivity|]. split.
  - destruct Hin as [->|Hin]; simpl; auto.
  - constructor; assumption.
Qed.

Lemma max_list_spec l :
  l <> [] -> exists m, Py.max_list l = Ok m /\ is_greatest m l.
Proof.
  destruct l as [|x l]; [congruence|]. intros _.
  destruct (fold_max_spec l x) as (Hin & Hle & Hall).
  eexists. split; [reflexivity|]. split.
  - destruct Hin as [->|Hin]; simpl; auto.
  - constructor; assumption.
Qed.

Lemma is_least_unique m m' l l' :
  is_least m l -> is_least m' l' -> (forall x, In x l <-> In x l') -> m = m'.
Proof.
  intros [Hin Hall] [Hin' Hall'] Hiff.
  rewrite Forall_forall in Hall, Hall'.
  pose proof (Hall m' (proj2 (Hiff m') Hin')).
  pose proof (Hall' m (proj1 (Hiff m) Hin)). lia.
Qed.

Lemma is_greatest_unique m m' l l' :
  is_greatest m l -> is_greatest m' l' -> (forall x, In x l <-> In x l') ->
  m = m'.
Proof.
  intros [Hin Hall] [Hin' Hall'] Hiff.
  rewrite Forall_forall in Hall, Hall'.
  pose proof (Hall m' (proj2 (Hiff m') Hin')).
  pose proof (Hall' m (proj1 (Hiff m) Hin)). lia.
Qed.

(** X10. [lowest] returns, for each channel, an element of its sequence
    that is below all the others, and [highest] one that is above them;
    both raise [ValueError] on an empty sequence. *)
Theorem lowest_highest_extremes (rs gs bs als : list Z) :
  (rs <> [] -> gs <> [] -> bs <> [] -> als <> [] ->
   exists r g b a r' g' b' a',
     lowest rs gs bs als = Ok [r; g; b; a] /\
     is_least r rs /\ is_least g gs /\ is_least b bs /\ is_least a als /\
     highest rs gs bs als = Ok [r'; g'; b'; a'] /\
     is_greatest r' rs /\ is_greatest g' gs /\ is_greatest b' bs /\
     is_greatest a' als) /\
  (rs = [] \/ gs = [] \/ bs = [] \/ als = [] ->
   lowest rs gs bs als = Raise ValueError /\
   highest rs gs bs als = Raise ValueError).
Proof.
  split.
  - intros Hr Hg Hb Ha.
    destruct (min_list_spec rs Hr) as (r & Er & Lr).
    destruct (min_list_spec gs Hg) as (g & Eg & Lg).
    destruct (min_list_spec bs Hb) as (b & Eb & Lb).
    destruct (min_list_spec als Ha) as (a & Ea & La).
    destruct (max_list_spec rs Hr) as (r' & Er' & Gr).
    destruct (max_list_spec gs Hg) as (g' & Eg' & Gg).
    destruct (max_list_spec bs Hb) as (b' & Eb' & Gb).
    destruct (max_list_spec als Ha) as (a' & Ea' & Ga).
    exists r, g, b, a, r', g', b', a'. unfold lowest, highest.
    rewrite Er, Eg, Eb, Ea, Er', Eg', Eb', Ea'. cbn [bind]. auto 12.
  - unfold lowest, highest. intros H.
    destruct rs, gs, bs, als; cbn; auto;
      exfalso; destruct H as [H | [H | [H | H]]]; discriminate.
Qed.

Lemma lowest_highest_extremes_witness :
  exists r g b a r' g' b' a',
    lowest [10; 200] [20; 30] [40; 5] [255; 255] = Ok [r; g; b; a] /\
    is_least r [10; 200] /\ is_least g [20; 30] /\ is_least b [40; 5] /\
    is_least a [255; 255] /\
    highest [10; 200] [20; 30] [40; 5] [255; 255] = Ok [r'; g'; b'; a'] /\
    is_greatest r' [10; 200] /\ is_greatest g' [20; 30] /\
    is_greatest b' [40; 5] /\ is_greatest a' [255; 255].
Proof.
  apply (proj1 (lowest_highest_extremes [10; 200] [20; 30] [40; 5]
                  [255; 255])); discriminate.
Defined.

Lemma sum_permutation l l' : Permutation l l' -> Py.sum l = Py.sum l'.
Proof.
  induction 1 as [|x l l' _ IH|x y l|l l' l'' _ IH1 _ IH2].
  - reflexivity.
  - rewrite !sum_cons. lia.
  - rewrite !sum_cons. lia.
  - congruence.
Qed.

Lemma min_list_permutation l l' :
  Permutation l l' -> Py.min_list l = Py.min_list l'.
Proof.
  intros H. destruct l as [|x l].
  - apply Permutation_nil in H. now subst.
  - assert (Hne' : l' <> [])
      by (intros ->; apply Permutation_sym, Permutation_nil in H;
          discriminate).
    destruct (min_list_spec (x :: l) ltac:(discriminate)) as (m & E & L).
    destruct (min_list_spec l' Hne') as (m' & E' & L').
    rewrite E, E'. f_equal. apply (is_least_unique m m' (x :: l) l'); auto.
    intros y. split; intros Hy.
    + eapply Permutation_in; eauto.
    + eapply Permutation_in; [apply Permutation_sym|]; eauto.
Qed.

Lemma max_list_permutation l l' :
  Permutation l l' -> Py.max_list l = Py.max_list l'.
Proof.
  intros H. destruct l as [|x l].
  - apply Permutation_nil in H. now subst.
  - assert (Hne' : l' <> [])
      by (intros ->; apply Permutation_sym, Permutation_nil in H;
          discriminate).
    destruct (max_list_spec (x :: l) ltac:(discriminate)) as (m & E & L).
    destruct (max_list_spec l' Hne') as (m' & E' & L').
    rewrite E, E'. f_equal. apply (is_greatest_unique m m' (x :: l) l'); auto.
    intros y. split; intros Hy.
    + eapply Permutation_in; eauto.
    + eapply Permutation_in; [apply Permutation_sym|]; eauto.
Qed.

(** X11. [mix], [lowest] and [highest] do not depend on the order of the
    samples: reordering any of the four sequences changes nothing, not
    even the exception. *)
Theorem reducers_ignore_order (rs gs bs als rs' gs' bs' als' : list Z) :
  Permutation rs rs' -> Permutation gs gs' -> Permutation bs bs' ->
  Permutation als als' ->
  mix rs gs bs als = mix rs' gs' bs' als' /\
  lowest rs gs bs als = lowest rs' gs' bs' als' /\
  highest rs gs bs als = highest rs' gs' bs' als'.
Proof.
  intros Hr Hg Hb Ha. unfold mix, lowest, highest, Py.len.
  rewrite (sum_permutation _ _ Hr), (sum_permutation _ _ Hg),
    (sum_permutation _ _ Hb), (sum_permutation _ _ Ha).
  rewrite (Permutation_length Hr), (Permutation_length Hg),
    (Permutation_length Hb), (Permutation_length Ha).
  rewrite (min_list_permutation _ _ Hr), (min_list_permutation _ _ Hg),
    (min_list_permutation _ _ Hb), (min_list_permutation _ _ Ha).
  rewrite (max_list_permutation _ _ Hr), (max_list_permutation _ _ Hg),
    (max_list_permutation _ _ Hb), (max_list_permutation _ _ Ha).
  auto.
Qed.

Lemma reducers_ignore_order_witness :
  mix [1; 2; 3] [7; 8] [0; 5] [255] = mix [3; 1; 2] [8; 7] [0; 5] [255] /\
  lowest [1; 2; 3] [7; 8] [0; 5] [255] = lowest [3; 1; 2] [8; 7] [0; 5] [255] /\
  highest [1; 2; 3] [7; 8] [0; 5] [255] = highest [3; 1; 2] [8; 7] [0; 5] [255].
Proof.
  apply reducers_ignore_order.
  - apply Permutation_sym, (Permutation_cons_app [1; 2] []), Permutation_refl.
  - apply perm_swap.
  - apply Permutation_refl.
  - apply Permutation_refl.
Defined.

Lemma sum_lower_bound m l : Forall (Z.le m) l -> m * Py.len l <= Py.sum l.
Proof.
  unfold Py.len. induction 1 as [|x l Hx _ IH].
  - unfold Py.sum. simpl. lia.
  - rewrite sum_cons. cbn [List.length]. lia.
Qed.

Lemma sum_upper_bound m l :
  Forall (fun x => x <= m) l -> Py.sum l <= m * Py.len l.
Proof.
  unfold Py.len. induction 1 as [|x l Hx _ IH].
  - unfold Py.sum. simpl. lia.
  - rewrite sum_cons. cbn [List.length]. lia.
Qed.

(** The rounded mean of a channel sequence lies between its least and its
    greatest element. *)
Lemma mix_channel_between l :
  channel_sequence l ->
  exists lo z hi x,
    Py.min_list l = Ok lo /\ Py.max_list l = Ok hi /\
    truediv (I (Py.sum l)) (I (Py.len l)) = Ok x /\ round_num x = Ok z /\
    lo <= z <= hi /\ channel z.
Proof.
  intros Hseq. destruct (mix_channel l Hseq) as (x & z & Hx & Hz & Hnear).
  destruct Hseq as (Hne & Hch & Hlen).
  destruct (min_list_spec l Hne) as (lo & Elo & [Ilo Hlo]).
  destruct (max_list_spec l Hne) as (hi & Ehi & [Ihi Hhi]).
  exists lo, z, hi, x. repeat (split; [assumption|]).
  pose proof (sum_lower_bound lo l Hlo).
  pose proof (sum_upper_bound hi l Hhi).
  pose proof (len_pos l Hne).
  unfold nearest_to_mean in Hnear.
  assert (Hz1 : - Py.len l <= 2 * (z * Py.len l - Py.sum l) <= Py.len l)
    by lia.
  assert (Hbetween : lo <= z <= hi) by (split; nia).
  split; [exact Hbetween|].
  rewrite Forall_forall in Hch.
  pose proof (Hch lo Ilo). pose proof (Hch hi Ihi). unfold channel in *. lia.
Qed.

(** X12. On a batch of channels [mix] lies between [lowest] and
    [highest], channel by channel, and so returns channels again. *)
Theorem mix_between_lowest_and_highest (rs gs bs als : list Z) :
  channel_sequence rs -> channel_sequence gs ->
  channel_sequence bs -> channel_sequence als ->
  exists lo mi hi,
    lowest rs gs bs als = Ok lo /\ mix rs gs bs als = Ok mi /\
    highest rs gs bs als = Ok hi /\
    Forall2 Z.le lo mi /\ Forall2 Z.le mi hi /\ Forall channel mi.
Proof.
  intros Hr Hg Hb Ha.
  destruct (mix_channel_between rs Hr)
    as (lr & zr & hr & xr & Lr & Gr & Xr & Zr & Br & Cr).
  destruct (mix_channel_between gs Hg)
    as (lg & zg & hg & xg & Lg & Gg & Xg & Zg & Bg & Cg).
  destruct (mix_channel_between bs Hb)
    as (lb & zb & hb & xb & Lb & Gb & Xb & Zb & Bb & Cb).
  destruct (mix_channel_between als Ha)
    as (la & za & ha & xa & La & Ga & Xa & Za & Ba & Ca).
  exists [lr; lg; lb; la], [zr; zg; zb; za], [hr; hg; hb; ha].
  unfold lowest, mix, highest.
  rewrite Lr, Lg, Lb, La, Gr, Gg, Gb, Ga, Xr, Xg, Xb, Xa. cbn [bind].
  rewrite Zr, Zg, Zb, Za. cbn [bind].
  split; [reflexivity|]. split; [reflexivity|]. split; [reflexivity|].
  split; [|split].
  - repeat (constructor; [lia|]). constructor.
  - repeat (constructor; [lia|]). constructor.
  - repeat (constructor; [assumption|]). constructor.
Qed.

Lemma channel_sequence_small l :
  l <> [] -> Forall channel l -> (List.length l <= 4)%nat ->
  channel_sequence l.
Proof.
  intros Hne Hch Hlen. split; [exact Hne|]. split; [exact Hch|].
  unfold Py.len. change (2 ^ 44) with 17592186044416. lia.
Defined.

Lemma mix_between_lowest_and_highest_witness :
  exists lo mi hi,
    lowest [255; 0; 0] [0; 255; 0] [0; 0; 255] [255; 255; 255] = Ok lo /\
    mix [255; 0; 0] [0; 255; 0] [0; 0; 255] [255; 255; 255] = Ok mi /\
    highest [255; 0; 0] [0; 255; 0] [0; 0; 255] [255; 255; 255] = Ok hi /\
    Forall2 Z.le lo mi /\ Forall2 Z.le mi hi /\ Forall channel mi.
Proof.
  apply mix_between_lowest_and_highest;
    (apply channel_sequence_small;
     [discriminate | repeat constructor; unfold channel; lia | simpl; lia]).
Defined.

(** X13. A batch that repeats one sample is a fixed point of [mix],
    [lowest] and [highest]; in particular a single sample is returned
    unchanged. *)
Theorem reducers_on_repeated_sample (n : nat) (r g b a : Z) :
  channel r -> channel g -> channel b -> channel a ->
  Z.of_nat (S n) < 2 ^ 44 ->
  mix (repeat r (S n)) (repeat g (S n)) (repeat b (S n)) (repeat a (S n)) =
    Ok [r; g; b; a] /\
  lowest (repeat r (S n)) (repeat g (S n)) (repeat b (S n)) (repeat a (S n)) =
    Ok [r; g; b; a] /\
  highest (repeat r (S n)) (repeat g (S n)) (repeat b (S n)) (repeat a (S n)) =
    Ok [r; g; b; a].
Proof.
  intros Hr Hg Hb Ha Hn.
  assert (Hseq : forall v, channel v -> channel_sequence (repeat v (S n))).
  { intros v Hv. split; [discriminate|]. split.
    - apply Forall_forall. intros x Hx. apply repeat_spec in Hx. now subst.
    - unfold Py.len. now rewrite repeat_length. }
  assert (Hfix : forall v, channel v ->
    exists x, Py.min_list (repeat v (S n)) = Ok v /\
              Py.max_list (repeat v (S n)) = Ok v /\
              truediv (I (Py.sum (repeat v (S n))))
                      (I (Py.len (repeat v (S n)))) = Ok x /\
              round_num x = Ok v).
  { intros v Hv.
    destruct (mix_channel_between _ (Hseq v Hv))
      as (lo & z & hi & x & Lo & Hi & X & Z & Bz & _).
    destruct (min_list_spec (repeat v (S n)) ltac:(discriminate))
      as (lo' & Lo' & [Ilo _]).
    destruct (max_list_spec (repeat v (S n)) ltac:(discriminate))
      as (hi' & Hi' & [Ihi _]).
    apply repeat_spec in Ilo, Ihi. subst lo' hi'.
    rewrite Lo in Lo'. rewrite Hi in Hi'.
    injection Lo' as ->. injection Hi' as ->.
    exists x. assert (z = v) by lia. subst z. auto. }
  destruct (Hfix r Hr) as (xr & Lr & Gr & Xr & Zr).
  destruct (Hfix g Hg) as (xg & Lg & Gg & Xg & Zg).
  destruct (Hfix b Hb) as (xb & Lb & Gb & Xb & Zb).
  destruct (Hfix a Ha) as (xa & La & Ga & Xa & Za).
  unfold mix, lowest, highest.
  rewrite Lr, Lg, Lb, La, Gr, Gg, Gb, Ga, Xr, Xg, Xb, Xa. cbn [bind].
  rewrite Zr, Zg, Zb, Za. auto.
Qed.

Lemma reducers_on_repeated_sample_witness :
  mix (repeat 200 3) (repeat 100 3) (repeat 50 3) (repeat 255 3) =
    Ok [200; 100; 50; 255] /\
  lowest (repeat 200 3) (repeat 100 3) (repeat 50 3) (repeat 255 3) =
    Ok [200; 100; 50; 255] /\
  highest (repeat 200 3) (repeat 100 3) (repeat 50 3) (repeat 255 3) =
    Ok [200; 100; 50; 255].
Proof.
  apply (reducers_on_repeated_sample 2 200 100 50 255);
    unfold channel; lia.
Defined.

(** ** [mix_saturate] on the last sample *)

Lemma calc_saturation_levels r g b :
  channel r -> channel g -> channel b ->
  exists cmax cmin,
    In cmax levels /\ In cmin levels /\
    Color.calc_saturation r g b = saturation_of_extremes cmax cmin.
Proof.
  intros Hr Hg Hb.
  destruct (normalized_level r Hr) as (x & Hx & Ix).
  destruct (normalized_level g Hg) as (y & Hy & Iy).
  destruct (normalized_level b Hb) as (z & Hz & Iz).
  exists (max3 x y z), (min3 x y z).
  rewrite calc_saturation_extremes, Hx, Hy, Hz. cbn [bind].
  repeat split.
  - destruct (max3_cases x y z) as [-> | [-> | ->]]; assumption.
  - destruct (min3_cases x y z) as [-> | [-> | ->]]; assumption.
Qed.

Lemma pairs_of_levels (check : num -> num -> bool) :
  forallb (fun x => forallb (check x) levels) levels = true ->
  forall x y, In x levels -> In y levels -> check x y = true.
Proof.
  intros H x y Hx Hy. rewrite forallb_forall in H. specialize (H x Hx).
  rewrite forallb_forall in H. exact (H y Hy).
Qed.

Lemma index_of_in v l : In v l -> exists i, Py.index_of v l = Ok i.
Proof.
  induction l as [|x l IH]; [contradiction|]. intros Hin. cbn [Py.index_of].
  destruct (Z.eqb_spec x v); [eauto|].
  destruct Hin as [->|Hin]; [congruence|].
  destruct (IH Hin) as (i & ->). cbn [bind]. eauto.
Qed.

Lemma distinct_levels :
  forallb (fun p => forallb (distinct_check p) level_table) level_table = true.
Proof. vm_compute. reflexivity. Qed.

Lemma level_table_in v : channel v -> In (v, level v) level_table.
Proof.
  intros Hv. unfold level_table.
  apply (in_map (fun z => (z, level z))), range_in.
  unfold channel in Hv. lia.
Qed.

Lemma normalized_distinct u v :
  channel u -> channel v -> u <> v ->
  exists x y, normalized u = Ok (F x) /\ normalized v = Ok (F y) /\
              ne (F x) (F y) = true.
Proof.
  intros Hu Hv Hne.
  destruct (gray_level u Hu) as (x & Hx & _).
  destruct (gray_level v Hv) as (y & Hy & _).
  exists x, y. repeat split; auto.
  pose proof distinct_levels as H. rewrite forallb_forall in H.
  specialize (H _ (level_table_in u Hu)). rewrite forallb_forall in H.
  specialize (H _ (level_table_in v Hv)).
  unfold distinct_check, level in H. cbn [fst snd] in H.
  rewrite Hx, Hy in H. destruct (Z.eqb_spec u v); [contradiction|].
  exact H.
Qed.

(** [mix_saturate] up to its guards, for a last sample of channels. *)
Lemma mix_saturate_unfolded rs gs bs als r g b a avg :
  channel r -> channel g -> channel b ->
  exists cmax cmin index_max index_min xmax xmin s,
    is_greatest cmax [r; g; b] /\ is_least cmin [r; g; b] /\
    normalized cmax = Ok (F xmax) /\ normalized cmin = Ok (F xmin) /\
    Color.calc_saturation r g b = Ok s /\
    mix_saturate (rs ++ [r]) (gs ++ [g]) (bs ++ [b]) (als ++ [a]) avg =
    (last_color' <-
       (if gt avg s && ne (F xmax) (F xmin) then
          x <- new_cmax avg (F xmin) ;;
          v <- to_channel x ;;
          Py.assign [r; g; b] index_max v
        else if lt avg s && ne (F xmax) (F xmin) then
          x <- new_cmin avg (F xmax) ;;
          v <- to_channel x ;;
          Py.assign [r; g; b] index_min v
        else Ok [r; g; b]) ;;
     Ok (last_color' ++ [a])).
Proof.
  intros Hr Hg Hb.
  assert (Hch : Forall channel [r; g; b])
    by (repeat (constructor; [assumption|]); constructor).
  rewrite Forall_forall in Hch.
  destruct (max_list_spec [r; g; b] ltac:(discriminate)) as (cmax & Emax & Gmax).
  destruct (min_list_spec [r; g; b] ltac:(discriminate)) as (cmin & Emin & Lmin).
  destruct (index_of_in cmax [r; g; b] (proj1 Gmax)) as (imax & Eimax).
  destruct (index_of_in cmin [r; g; b] (proj1 Lmin)) as (imin & Eimin).
  destruct (gray_level cmax (Hch _ (proj1 Gmax))) as (xmax & Hxmax & _).
  destruct (gray_level cmin (Hch _ (proj1 Lmin))) as (xmin & Hxmin & _).
  destruct (calc_saturation_ok r g b Hr Hg Hb) as (s & Hs & _).
  exists cmax, cmin, imax, imin, xmax, xmin, s.
  repeat (split; [assumption|]).
  unfold mix_saturate. rewrite !last_item_snoc. cbn [bind].
  rewrite Emax. cbn [bind]. rewrite Eimax. cbn [bind].
  rewrite Emin. cbn [bind]. rewrite Eimin. cbn [bind].
  fold (normalized cmax) (normalized cmin).
  rewrite Hxmax, Hxmin, Hs. reflexivity.
Qed.

Lemma single_samples py :
  forallb (fun x => forallb (single_check py x) levels) levels = true.
Proof. destruct py; vm_compute; reflexivity. Qed.

(** X14. In the mix-saturate mode a batch of one sample gives that sample
    back, under either interpreter: its average saturation is its own
    saturation, so neither adjustment applies. *)
Theorem mix_saturate_single_sample (py : interpreter) (r g b a : Z) :
  channel r -> channel g -> channel b ->
  exists avg,
    average_saturation py [r] [g] [b] = Ok avg /\
    mix_saturate [r] [g] [b] [a] avg = Ok [r; g; b; a].
Proof.
  intros Hr Hg Hb.
  destruct (calc_saturation_levels r g b Hr Hg Hb)
    as (cmax & cmin & Imax & Imin & Hsat).
  pose proof (pairs_of_levels (single_check py) (single_samples py)
                _ _ Imax Imin) as H.
  unfold single_check in H. rewrite <- Hsat in H.
  destruct (Color.calc_saturation r g b) as [s|] eqn:Es; [|discriminate].
  destruct (arithmetic_mean py [s]) as [avg|] eqn:Eavg; [|discriminate].
  apply andb_prop in H. destruct H as [Hgt Hlt].
  apply negb_true_iff in Hgt, Hlt.
  exists avg. split.
  - rewrite (average_saturation_refines py [r] [g] [b] eq_refl eq_refl).
    cbn [zip3 saturation_of_each]. rewrite Es. cbn [bind]. exact Eavg.
  - destruct (mix_saturate_unfolded [] [] [] [] r g b a avg Hr Hg Hb)
      as (c1 & c2 & i1 & i2 & x1 & x2 & s' & _ & _ & _ & _ & Es' & Hmix).
    rewrite Es in Es'. injection Es' as <-.
    cbn [app] in Hmix. rewrite Hmix, Hgt, Hlt. reflexivity.
Qed.

Lemma mix_saturate_single_sample_witness :
  exists avg,
    average_saturation Since312 [1] [0] [0] = Ok avg /\
    mix_saturate [1] [0] [0] [255] avg = Ok [1; 0; 0; 255].
Proof.
  apply mix_saturate_single_sample; unfold channel; lia.
Defined.

Lemma unit_saturations :
  forallb (fun x => forallb (unit_check x) levels) levels = true.
Proof. vm_compute. reflexivity. Qed.

Lemma new_cmax_unit c : new_cmax (F 1) (F c) = Raise ZeroDivisionError.
Proof. vm_compute. reflexivity. Qed.

Lemma new_cmin_unit c : new_cmin (F 1) (F c) = Raise ZeroDivisionError.
Proof. vm_compute. reflexivity. Qed.

Lemma extremes_differ r g b cmax cmin :
  is_greatest cmax [r; g; b] -> is_least cmin [r; g; b] ->
  ~ (r = g /\ g = b) -> cmax <> cmin.
Proof.
  intros [_ Hmax] [_ Hmin] Hne E. subst cmin.
  rewrite Forall_forall in Hmax, Hmin.
  pose proof (Hmax r ltac:(simpl; auto)). pose proof (Hmin r ltac:(simpl; auto)).
  pose proof (Hmax g ltac:(simpl; auto)). pose proof (Hmin g ltac:(simpl; auto)).
  pose proof (Hmax b ltac:(simpl; auto)). pose proof (Hmin b ltac:(simpl; auto)).
  apply Hne. lia.
Qed.

(** X15. An average saturation of exactly 1.0 makes [mix_saturate] divide
    by zero whenever the last sample is chromatic and its own saturation is
    not exactly 1: both adjustments divide by [avg_saturation - 1]. *)
Theorem mix_saturate_unit_average_raises (rs gs bs als : list Z)
    (r g b a : Z) (s : num) :
  channel r -> channel g -> channel b ->
  ~ (r = g /\ g = b) ->
  Color.calc_saturation r g b = Ok s -> Num.eq (F 1) s = false ->
  mix_saturate (rs ++ [r]) (gs ++ [g]) (bs ++ [b]) (als ++ [a]) (F 1) =
  Raise ZeroDivisionError.
Proof.
  intros Hr Hg Hb Hne Hs Heq.
  destruct (mix_saturate_unfolded rs gs bs als r g b a (F 1) Hr Hg Hb)
    as (cmax & cmin & imax & imin & xmax & xmin & s' & Gmax & Lmin &
        Hxmax & Hxmin & Hs' & Hmix).
  rewrite Hs in Hs'. injection Hs' as <-.
  assert (Hch : Forall channel [r; g; b])
    by (repeat (constructor; [assumption|]); constructor).
  rewrite Forall_forall in Hch.
  destruct (normalized_distinct cmax cmin (Hch _ (proj1 Gmax))
              (Hch _ (proj1 Lmin))
              (extremes_differ r g b cmax cmin Gmax Lmin Hne))
    as (x & y & Hx & Hy & Hxy).
  rewrite Hxmax in Hx. rewrite Hxmin in Hy.
  injection Hx as <-. injection Hy as <-.
  destruct (calc_saturation_levels r g b Hr Hg Hb)
    as (M & m & IM & Im & Hsat).
  pose proof (pairs_of_levels unit_check unit_saturations _ _ IM Im) as H.
  unfold unit_check in H. rewrite <- Hsat, Hs, Heq in H. cbn [orb] in H.
  rewrite Hmix, Hxy, !andb_true_r.
  destruct (gt (F 1) s).
  - now rewrite new_cmax_unit.
  - cbn [orb] in H. rewrite H. now rewrite new_cmin_unit.
Qed.

Lemma mix_saturate_unit_average_raises_witness :
  mix_saturate ([7] ++ [9]) ([0] ++ [0]) ([0] ++ [0]) ([255] ++ [255]) (F 1) =
  Raise ZeroDivisionError.
Proof.
  eapply (mix_saturate_unit_average_raises [7] [0] [0] [255] 9 0 0 255);
    try (unfold channel; lia).
  - vm_compute. reflexivity.
  - vm_compute. reflexivity.
Defined.

(** ** The empty batch *)

Lemma read_lines_all_invalid l : forall acc,
  (forall line, In line l -> format_color (Py.rstrip line) = Ok None) ->
  read_lines l acc = Ok acc.
Proof.
  induction l as [|line rest IH]; intros acc H; [reflexivity|].
  cbn [read_lines]. rewrite (H line) by (simpl; auto). cbn [bind].
  apply IH. intros x Hx. apply H. simpl. auto.
Qed.

(** X16. When no line and no token is valid the run raises
    [ZeroDivisionError] in every mode: the average saturation of the empty
    batch is computed before the mode is looked at, and so comes before the
    [ValueError] of [lowest] and [highest] and the [IndexError] of
    [mix_saturate] on that batch. *)
Theorem new_color_without_valid_token (py : interpreter) (m : mode)
    (lines : str) (colorcode : list str) (avg : num) :
  (forall line, In line (Py.split is_newline lines ++ colorcode) ->
                format_color (Py.rstrip line) = Ok None) ->
  read_colors lines colorcode = Ok empty_batch /\
  new_color py m lines colorcode = Raise ZeroDivisionError /\
  mix [] [] [] [] = Raise ZeroDivisionError /\
  lowest [] [] [] [] = Raise ValueError /\
  highest [] [] [] [] = Raise ValueError /\
  mix_saturate [] [] [] [] avg = Raise IndexError.
Proof.
  intros H.
  assert (Hread : read_colors lines colorcode = Ok empty_batch)
    by (unfold read_colors; now apply read_lines_all_invalid).
  split; [exact Hread|]. split; [|repeat split].
  unfold new_color. rewrite Hread. destruct py; reflexivity.
Qed.

Lemma new_color_without_valid_token_witness :
  read_colors (lit "12345") [lit "FF0000"; lit "1,2,3"] = Ok empty_batch /\
  new_color Since312 Lowest (lit "12345") [lit "FF0000"; lit "1,2,3"] =
    Raise ZeroDivisionError /\
  mix [] [] [] [] = Raise ZeroDivisionError /\
  lowest [] [] [] [] = Raise ValueError /\
  highest [] [] [] [] = Raise ValueError /\
  mix_saturate [] [] [] [] (F 1) = Raise IndexError.
Proof.
  apply new_color_without_valid_token.
  intros line [<- | [<- | [<- | []]]]; reflexivity.
Defined.

(** ** Encoding and parsing back *)

Lemma channels_encoded : forallb encode_check (range 256) = true.
Proof. vm_compute. reflexivity. Qed.

Lemma channel_encoded v :
  channel v ->
  exists x c1 c2,
    normalized v = Ok x /\ Color.hex_byte x = Ok [c1; c2] /\
    is_lower_hex c1 = true /\ is_lower_hex c2 = true /\
    Py.int_base0 (lit "0x" ++ [c1; c2]) = Ok v.
Proof.
  intros Hv.
  assert (H : encode_check v = true).
  { apply (range_forallb _ 256 channels_encoded). unfold channel in Hv. lia. }
  unfold encode_check in H.
  destruct (normalized v) as [x|] eqn:Ex; [|discriminate].
  destruct (Color.hex_byte x) as [[|c1 [|c2 [|]]]|] eqn:Eb; try discriminate.
  apply andb_prop in H. destruct H as [H Hv'].
  apply andb_prop in H. destruct H as [H1 H2].
  destruct (Py.int_base0 (lit "0x" ++ [c1; c2])) as [v'|] eqn:Ei;
    [|discriminate].
  apply Z.eqb_eq in Hv'. subst v'. exists x, c1, c2.
  repeat (split; [first [reflexivity | assumption]|]). assumption.
Qed.

(** X17. The other direction of the hex round trip: the hex code of a
    colour built from four channels is [#] and eight lowercase hex digits,
    and parsing these digits gives the four channels back. *)
Theorem color_to_hex_parses_back (r g b a : Z) :
  channel r -> channel g -> channel b -> channel a ->
  exists c hex,
    Color.init r g b a = Ok c /\ Color.color_to_hex c = Ok hex /\
    List.length hex = 9%nat /\ hd_error hex = Some "#"%char /\
    forallb is_lower_hex (tl hex) = true /\
    format_color (tl hex) = Ok (Some [r; g; b; a]).
Proof.
  intros Hr Hg Hb Ha.
  destruct (channel_encoded r Hr) as (xr & r1 & r2 & Nr & Br & R1 & R2 & Ir).
  destruct (channel_encoded g Hg) as (xg & g1 & g2 & Ng & Bg & G1 & G2 & Ig).
  destruct (channel_encoded b Hb) as (xb & b1 & b2 & Nb & Bb & B1 & B2 & Ib).
  destruct (channel_encoded a Ha) as (xa & a1 & a2 & Na & Ba & A1 & A2 & Ia).
  exists (Color.make xr xg xb xa),
         ("#"%char :: [r1; r2; g1; g2; b1; b2; a1; a2]).
  assert (Hall : forallb is_lower_hex [r1; r2; g1; g2; b1; b2; a1; a2] = true)
    by (cbn [forallb]; rewrite R1, R2, G1, G2, B1, B2, A1, A2; reflexivity).
  split; [|split; [|split; [reflexivity|split; [reflexivity|split]]]].
  - unfold Color.init. fold (normalized r) (normalized g) (normalized b)
      (normalized a). rewrite Nr, Ng, Nb, Na. reflexivity.
  - unfold Color.color_to_hex. cbn [Color.r Color.g Color.b Color.a].
    rewrite Br, Bg, Bb, Ba. reflexivity.
  - exact Hall.
  - cbn [tl]. unfold format_color.
    rewrite (hex_pattern_matches [r1; r2; g1; g2; b1; b2; a1; a2] eq_refl
               Hall).
    cbn [List.length Nat.eqb Py.slice Py.slice_from Nat.sub firstn skipn].
    rewrite Ir, Ig, Ib, Ia. reflexivity.
Qed.

Lemma color_to_hex_parses_back_witness :
  exists c hex,
    Color.init 85 85 85 255 = Ok c /\ Color.color_to_hex c = Ok hex /\
    List.length hex = 9%nat /\ hd_error hex = Some "#"%char /\
    forallb is_lower_hex (tl hex) = true /\
    format_color (tl hex) = Ok (Some [85; 85; 85; 255]).
Proof.
  apply color_to_hex_parses_back; unfold channel; lia.
Defined.

(** ** Saturation and lightness stay in range *)

Lemma levels_ordered :
  forallb (fun x => forallb (order_check x) levels) levels = true.
Proof. vm_compute. reflexivity. Qed.

Lemma levels_in_range :
  forallb (fun x => forallb (range_check x) levels) levels = true.
Proof. vm_compute. reflexivity. Qed.

Lemma lt_le x y : lt x y = true -> le x y = true.
Proof. unfold lt, le. destruct (Num.compare x y) as [[]|]; auto. Qed.

Lemma level_total x y :
  In x levels -> In y levels -> lt x y = false -> le y x = true.
Proof.
  intros Hx Hy H.
  pose proof (pairs_of_levels order_check levels_ordered x y Hx Hy) as T.
  unfold order_check in T. now rewrite H in T.
Qed.

Lemma level_le_refl x : In x levels -> le x x = true.
Proof.
  intros Hx.
  pose proof (pairs_of_levels order_check levels_ordered x x Hx Hx) as T.
  unfold order_check in T. apply orb_prop in T.
  destruct T as [T | T]; [apply lt_le|]; exact T.
Qed.

(** The least of three normalised channels is below the greatest. *)
Lemma min3_le_max3 x y z :
  In x levels -> In y levels -> In z levels ->
  le (min3 x y z) (max3 x y z) = true.
Proof.
  intros Hx Hy Hz. unfold min3, max3, gt. cbv zeta.
  destruct (lt x y) eqn:Exy; destruct (lt y x) eqn:Eyx;
    repeat match goal with
    | |- context [if lt ?a ?b then _ else _] =>
        let E := fresh "E" in destruct (lt a b) eqn:E
    end;
    first [ apply level_le_refl; assumption
          | apply lt_le; assumption
          | apply level_total; assumption ].
Qed.

(** X18. For every sample of channels the lightness lies in [0, 1] and the
    saturation in [0, 1 + 2^-47]: never negative, but above 1 for some
    samples, (255, 251, 251) reaching the bound. *)
Theorem saturation_lightness_ranges (r g b a : Z) :
  channel r -> channel g -> channel b -> channel a ->
  (exists c s l,
      Color.init r g b a = Ok c /\
      Color.calc_saturation r g b = Ok s /\ Color.calc_lightness c = Ok l /\
      le (I 0) s = true /\ le s saturation_cap = true /\
      le (I 0) l = true /\ le l (I 1) = true) /\
  Color.calc_saturation 255 251 251 = Ok saturation_cap /\
  lt (I 1) saturation_cap = true.
Proof.
  intros Hr Hg Hb Ha. split; [|split; vm_compute; reflexivity].
  destruct (normalized_level r Hr) as (x & Hx & Ix).
  destruct (normalized_level g Hg) as (y & Hy & Iy).
  destruct (normalized_level b Hb) as (z & Hz & Iz).
  destruct (normalized_level a Ha) as (w & Hw & _).
  assert (Imax : In (max3 x y z) levels)
    by (destruct (max3_cases x y z) as [-> | [-> | ->]]; assumption).
  assert (Imin : In (min3 x y z) levels)
    by (destruct (min3_cases x y z) as [-> | [-> | ->]]; assumption).
  pose proof (pairs_of_levels range_check levels_in_range _ _ Imax Imin) as H.
  unfold range_check in H.
  rewrite (min3_le_max3 x y z Ix Iy Iz) in H. cbn [negb orb] in H.
  destruct (saturation_of_extremes (max3 x y z) (min3 x y z)) as [s|] eqn:Es;
    [|discriminate].
  destruct (lightness_of_extremes (max3 x y z) (min3 x y z)) as [l|] eqn:El;
    [|discriminate].
  repeat (apply andb_prop in H; destruct H as [H ?]).
  exists (Color.make x y z w), s, l.
  split; [|split; [|split; [exact El | auto]]].
  - unfold Color.init. fold (normalized r) (normalized g) (normalized b)
      (normalized a). rewrite Hx, Hy, Hz, Hw. reflexivity.
  - rewrite calc_saturation_extremes, Hx, Hy, Hz. exact Es.
Qed.

Lemma saturation_lightness_ranges_witness :
  (exists c s l,
      Color.init 1 0 0 255 = Ok c /\
      Color.calc_saturation 1 0 0 = Ok s /\ Color.calc_lightness c = Ok l /\
      le (I 0) s = true /\ le s saturation_cap = true /\
      le (I 0) l = true /\ le l (I 1) = true) /\
  Color.calc_saturation 255 251 251 = Ok saturation_cap /\
  lt (I 1) saturation_cap = true.
Proof.
  apply saturation_lightness_ranges; unfold channel; lia.
Defined.

(** ** Hue *)

Lemma hue_checked :
  forallb (fun hi => forallb (hue_check hi) (range 256)) (range 256) = true.
Proof. vm_compute. reflexivity. Qed.

(** [calc_hue] does not read the alpha channel. *)
Lemma calc_hue_alpha x y z w w' :
  Color.calc_hue (Color.make x y z w) = Color.calc_hue (Color.make x y z w').
Proof. reflexivity. Qed.

(** X19. [calc_hue] adds no offset for the channel that is the greatest:
    a colour with one channel above two equal ones has hue 0.0 whether the
    greatest channel is the red, the green or the blue one. *)
Theorem calc_hue_of_single_dominant_channel (hi lo a : Z) :
  channel hi -> channel lo -> channel a -> lo < hi ->
  exists c1 c2 c3,
    Color.init hi lo lo a = Ok c1 /\ Color.init lo hi lo a = Ok c2 /\
    Color.init lo lo hi a = Ok c3 /\
    Color.calc_hue c1 = Ok (F 0) /\ Color.calc_hue c2 = Ok (F 0) /\
    Color.calc_hue c3 = Ok (F 0).
Proof.
  intros Hhi Hlo Ha Hlt.
  assert (H : hue_check hi lo = true).
  { pose proof (range_forallb _ 256 hue_checked hi) as H1. cbv beta in H1.
    unfold channel in Hhi, Hlo.
    exact (range_forallb _ 256 (H1 ltac:(lia)) lo ltac:(lia)). }
  unfold hue_check in H.
  destruct (lo <? hi) eqn:E; [|apply Z.ltb_ge in E; lia].
  cbn [negb orb] in H.
  destruct (normalized hi) as [x|] eqn:Ex; [|discriminate].
  destruct (normalized lo) as [y|] eqn:Ey; [|discriminate].
  destruct (normalized_level a Ha) as (w & Ew & _).
  apply andb_prop in H. destruct H as [H H3].
  apply andb_prop in H. destruct H as [H1 H2].
  apply returns_eq in H1, H2, H3.
  exists (Color.make x y y w), (Color.make y x y w), (Color.make y y x w).
  unfold Color.init. fold (normalized hi) (normalized lo) (normalized a).
  rewrite Ex, Ey, Ew. cbn [bind].
  rewrite (calc_hue_alpha x y y w x), (calc_hue_alpha y x y w x),
    (calc_hue_alpha y y x w x).
  repeat (split; [first [reflexivity | assumption]|]). assumption.
Qed.

Lemma calc_hue_of_single_dominant_channel_witness :
  exists c1 c2 c3,
    Color.init 255 0 0 255 = Ok c1 /\ Color.init 0 255 0 255 = Ok c2 /\
    Color.init 0 0 255 255 = Ok c3 /\
    Color.calc_hue c1 = Ok (F 0) /\ Color.calc_hue c2 = Ok (F 0) /\
    Color.calc_hue c3 = Ok (F 0).
Proof.
  apply calc_hue_of_single_dominant_channel; unfold channel; lia.
Defined.
